(** * An OpenAI-compatible front end for Workers AI: request pipeline

    Shallow embedding of the request pipeline of the worker
    (authentication gate, rate limiter, request validator, completion
    engine and the streaming transcoder of the chat controller), with the
    properties of the pipeline proved about the embedded functions.

    Conventions of the embedding.
    - A JavaScript string is the list of its UTF-16 code units ([list N]).
      String literals are written with [js]; [jsq] is [js] with every
      apostrophe of the literal standing for a double quote, so that JSON
      text can be written inline.
    - A JSON number is kept as the exact decimal [mant * 10 ^ expo] that its
      literal denotes; comparisons are exact. [JSON.parse] gives the double
      nearest to the literal: the two agree on the literals that a double
      holds exactly, integers below 2 ^ 53 among them, and the embedding
      says nothing of the rounding of the others.
    - [Date.now()] and [crypto.randomUUID()] are read from the environment:
      a function giving the k-th clock reading and a function giving the
      k-th identifier drawn, with counters in the state.
    - The catalogue [models.json] and the inference binding [ai.run] are
      parameters of the engine. The stream of the binding is the list of
      the chunks of bytes its reader gives and the way it ends; the
      transcoder decodes each chunk on its own ([TextDecoder]) and works on
      the list of the texts so obtained.
    - The names of HTTP headers are case-insensitive: [Headers] keeps them
      in lower case.
    - The requests of one client are served one after the other; the
      consumer of a response stream reads it to its end. *)

From Stdlib Require Import ZArith NArith List String Ascii Lia Bool Sorted.
From stdpp Require Import base option list gmap strings pretty.

Set Default Proof Using "Type".

Set Warnings "-register-all".

Abbreviation jsstring := (list N).

(** ** JavaScript values *)

Module JS.

Definition js (s : string) : jsstring :=
  map N_of_ascii (list_ascii_of_string s).

(** [jsq "{'a':1}"] is the text [{"a":1}]. *)
Definition jsq (s : string) : jsstring :=
  map (fun c : N => if N.eqb c 39 then 34%N else c) (js s).

(** [a === b] on strings. *)
Definition str_eqb (a b : jsstring) : bool := bool_decide (a = b).

(** [s.startsWith(p)] *)
Fixpoint startsWith (s p : jsstring) {struct p} : bool :=
  match p, s with
  | [], _ => true
  | _ :: _, [] => false
  | c :: p', d :: s' => N.eqb c d && startsWith s' p'
  end.

(** [s.slice(k)] for [0 <= k]. *)
Definition slice_from (s : jsstring) (k : nat) : jsstring := drop k s.

(** [s.slice(0, k)] for [0 <= k]. *)
Definition slice_to (s : jsstring) (k : nat) : jsstring := take k s.

(** [s.indexOf(String.fromCharCode(c))]: position of the first
    occurrence, [None] for -1. *)
Fixpoint indexOf (s : jsstring) (c : N) : option nat :=
  match s with
  | [] => None
  | d :: s' => if N.eqb d c then Some 0%nat else S <$> indexOf s' c
  end.

(** A number: the decimal [mant * 10 ^ expo]. *)
Record number := Num { mant : Z; expo : Z }.

Definition of_Z (z : Z) : number := Num z 0.

(** Exact comparison of two decimals, after scaling both to the smaller
    exponent. *)
Definition scaled (n : number) (e : Z) : Z := (mant n * 10 ^ (expo n - e))%Z.

Definition num_ltb (a b : number) : bool :=
  let e := Z.min (expo a) (expo b) in (scaled a e <? scaled b e)%Z.

Definition num_is_zero (a : number) : bool := (mant a =? 0)%Z.

(** JSON values, as [JSON.parse] builds them. An object keeps its members
    in source order, duplicates included; property lookup takes the last
    one. *)
Inductive value :=
| JNull
| JBool (b : bool)
| JNum (n : number)
| JStr (s : jsstring)
| JArr (xs : list value)
| JObj (members : list (jsstring * value)).

(** What an exception carries: an [Error] with its message, or any other
    thrown value. *)
Inductive exn :=
| Error (message : jsstring)
| TypeError (message : jsstring)
| SyntaxError (message : jsstring)
| Thrown.

(** [e instanceof Error] *)
Definition instanceof_Error (e : exn) : bool :=
  match e with Thrown => false | _ => true end.

(** [e.message] of an [Error] instance. *)
Definition message_of (e : exn) : jsstring :=
  match e with
  | Error m | TypeError m | SyntaxError m => m
  | Thrown => []
  end.

(** Truthiness: [null], [false], zero and the empty string are falsy. *)
Definition truthy (v : value) : bool :=
  match v with
  | JNull => false
  | JBool b => b
  | JNum n => negb (num_is_zero n)
  | JStr s => match s with [] => false | _ => true end
  | JArr _ | JObj _ => true
  end.

(** The last member named [k], if any. *)
Fixpoint lookup_member (k : jsstring) (ms : list (jsstring * value)) : option value :=
  match ms with
  | [] => None
  | (k', v) :: ms' =>
      match lookup_member k ms' with
      | Some w => Some w
      | None => if str_eqb k' k then Some v else None
      end
  end.

(** Result of reading a property: the read throws (on [null]), gives
    [undefined], or gives a value. *)
Inductive prop :=
| Throws
| Undefined
| Val (v : value).

(** [v.k] for a property name [k] that no prototype defines: only an
    object has it; [null.k] throws. *)
Definition get (v : value) (k : jsstring) : prop :=
  match v with
  | JNull => Throws
  | JObj ms => match lookup_member k ms with Some w => Val w | None => Undefined end
  | _ => Undefined
  end.

Definition prop_truthy (p : prop) : bool :=
  match p with Val v => truthy v | _ => false end.

(** [typeof v === 'boolean'] *)
Definition is_boolean (v : value) : bool :=
  match v with JBool _ => true | _ => false end.

End JS.
Export JS.

(** ** JSON.parse

    The grammar of ECMA-404, by recursive descent over the code units. The
    descent into nested arrays and objects is bounded by a counter that
    [fuel_for] sets from the length of the text; [parse_value_fuel] shows
    that the bound is never reached. *)

Module Json.

Definition is_ws (c : N) : bool :=
  N.eqb c 32 || N.eqb c 9 || N.eqb c 10 || N.eqb c 13.

Fixpoint skip_ws (s : jsstring) : jsstring :=
  match s with
  | c :: r => if is_ws c then skip_ws r else s
  | [] => []
  end.

Definition is_digit (c : N) : bool := N.leb 48 c && N.leb c 57.

Definition hex_val (c : N) : option N :=
  if is_digit c then Some (c - 48)%N
  else if N.leb 97 c && N.leb c 102 then Some (c - 87)%N
  else if N.leb 65 c && N.leb c 70 then Some (c - 55)%N
  else None.

Definition hex4 (a b c d : N) : option N :=
  match hex_val a, hex_val b, hex_val c, hex_val d with
  | Some x, Some y, Some z, Some w => Some (((x * 16 + y) * 16 + z) * 16 + w)%N
  | _, _, _, _ => None
  end.

(** The character a one-letter escape stands for. *)
Definition escape (e : N) : option N :=
  if N.eqb e 34 then Some 34%N        (* quote *)
  else if N.eqb e 92 then Some 92%N   (* backslash *)
  else if N.eqb e 47 then Some 47%N   (* slash *)
  else if N.eqb e 98 then Some 8%N    (* b *)
  else if N.eqb e 102 then Some 12%N  (* f *)
  else if N.eqb e 110 then Some 10%N  (* n *)
  else if N.eqb e 114 then Some 13%N  (* r *)
  else if N.eqb e 116 then Some 9%N   (* t *)
  else None.

(** The rest of a string literal after its opening quote: the decoded
    string and the text after the closing quote. *)
Fixpoint string_body (s acc : jsstring) : option (jsstring * jsstring) :=
  match s with
  | [] => None
  | c :: r =>
      if N.eqb c 34 then Some (rev acc, r)
      else if N.eqb c 92 then
        match r with
        | [] => None
        | e :: r' =>
            if N.eqb e 117 then
              match r' with
              | h1 :: h2 :: h3 :: h4 :: r'' =>
                  match hex4 h1 h2 h3 h4 with
                  | Some u => string_body r'' (u :: acc)
                  | None => None
                  end
              | _ => None
              end
            else
              match escape e with
              | Some u => string_body r' (u :: acc)
              | None => None
              end
        end
      else if N.ltb c 32 then None
      else string_body r (c :: acc)
  end.

(** The longest prefix of digits, and what follows it. *)
Fixpoint digits (s : jsstring) : jsstring * jsstring :=
  match s with
  | c :: r => if is_digit c then let '(ds, rest) := digits r in (c :: ds, rest) else ([], s)
  | [] => ([], [])
  end.

Definition digits_value (ds : jsstring) : Z :=
  fold_left (fun a d => (10 * a + (Z.of_N d - 48))%Z) ds 0%Z.

(** An optional minus sign. *)
Definition sign_part (s : jsstring) : bool * jsstring :=
  match s with
  | c :: r => if N.eqb c 45 then (true, r) else (false, s)
  | [] => (false, s)
  end.

(** An optional fraction: a point and at least one digit. [None]: a point
    without a digit. *)
Definition fraction_part (s : jsstring) : option (jsstring * jsstring) :=
  match s with
  | c :: r =>
      if N.eqb c 46 then
        let '(fp, rest) := digits r in
        match fp with [] => None | _ => Some (fp, rest) end
      else Some ([], s)
  | [] => Some ([], s)
  end.

(** An optional sign of an exponent, minus or plus. *)
Definition exponent_sign (s : jsstring) : bool * jsstring :=
  match s with
  | g :: r =>
      if N.eqb g 45 then (true, r)
      else if N.eqb g 43 then (false, r)
      else (false, s)
  | [] => (false, s)
  end.

(** An optional exponent: [e] or [E], an optional sign and at least one
    digit. [None]: an exponent mark without a digit. *)
Definition exponent_part (s : jsstring) : option (Z * jsstring) :=
  match s with
  | c :: r =>
      if N.eqb c 101 || N.eqb c 69 then
        let '(eneg, r1) := exponent_sign r in
        let '(ep, rest) := digits r1 in
        match ep with
        | [] => None
        | _ => Some (if eneg then (- digits_value ep)%Z else digits_value ep, rest)
        end
      else Some (0%Z, s)
  | [] => Some (0%Z, s)
  end.

(** [-? int frac? exp?] with [int] = [0] or a digit string that does not
    start with [0]. *)
Definition number_literal (s : jsstring) : option (number * jsstring) :=
  let '(neg, s1) := sign_part s in
  let '(ip, s2) := digits s1 in
  match ip with
  | [] => None
  | d :: ds =>
      if N.eqb d 48 && negb (bool_decide (ds = [])) then None
      else
        match fraction_part s2 with
        | None => None
        | Some (fp, s3) =>
            match exponent_part s3 with
            | None => None
            | Some (e, s4) =>
                let m := digits_value (ip ++ fp) in
                Some (Num (if neg then (- m)%Z else m) (e - Z.of_nat (length fp)), s4)
            end
        end
  end.

Inductive result :=
| Ok (v : value) (rest : jsstring)
| Bad
| OutOfFuel.

(** A keyword [null], [true] or [false] at the head of [s]. *)
Definition keyword (s : jsstring) : option (value * jsstring) :=
  if startsWith s (js "null") then Some (JNull, drop 4 s)
  else if startsWith s (js "true") then Some (JBool true, drop 4 s)
  else if startsWith s (js "false") then Some (JBool false, drop 5 s)
  else None.

Fixpoint parse_value (fuel : nat) (s : jsstring) : result :=
  match fuel with
  | O => OutOfFuel
  | S f =>
      match skip_ws s with
      | [] => Bad
      | c :: r =>
          if N.eqb c 34 then
            match string_body r [] with
            | Some (str, rest) => Ok (JStr str) rest
            | None => Bad
            end
          else if N.eqb c 91 then
            match skip_ws r with
            | d :: rest => if N.eqb d 93 then Ok (JArr []) rest else parse_elements f r []
            | [] => Bad
            end
          else if N.eqb c 123 then
            match skip_ws r with
            | d :: rest => if N.eqb d 125 then Ok (JObj []) rest else parse_members f r []
            | [] => Bad
            end
          else if N.eqb c 45 || is_digit c then
            match number_literal (c :: r) with
            | Some (n, rest) => Ok (JNum n) rest
            | None => Bad
            end
          else
            match keyword (c :: r) with
            | Some (v, rest) => Ok v rest
            | None => Bad
            end
      end
  end
with parse_elements (fuel : nat) (s : jsstring) (acc : list value) : result :=
  match fuel with
  | O => OutOfFuel
  | S f =>
      match parse_value f s with
      | Ok v rest =>
          match skip_ws rest with
          | d :: rest' =>
              if N.eqb d 44 then parse_elements f rest' (v :: acc)
              else if N.eqb d 93 then Ok (JArr (rev (v :: acc))) rest'
              else Bad
          | [] => Bad
          end
      | other => other
      end
  end
with parse_members (fuel : nat) (s : jsstring) (acc : list (jsstring * value)) : result :=
  match fuel with
  | O => OutOfFuel
  | S f =>
      match skip_ws s with
      | q :: r =>
          if N.eqb q 34 then
            match string_body r [] with
            | Some (k, rest) =>
                match skip_ws rest with
                | d :: rest' =>
                    if N.eqb d 58 then
                      match parse_value f rest' with
                      | Ok v rest'' =>
                          match skip_ws rest'' with
                          | g :: r3 =>
                              if N.eqb g 44 then parse_members f r3 ((k, v) :: acc)
                              else if N.eqb g 125 then Ok (JObj (rev ((k, v) :: acc))) r3
                              else Bad
                          | [] => Bad
                          end
                      | other => other
                      end
                    else Bad
                | [] => Bad
                end
            | None => Bad
            end
          else Bad
      | [] => Bad
      end
  end.

Definition fuel_for (s : jsstring) : nat := S (2 * length s).

(** [JSON.parse(text)]: [None] when it throws a [SyntaxError]. *)
Definition parse (text : jsstring) : option value :=
  match parse_value (fuel_for text) text with
  | Ok v rest => match skip_ws rest with [] => Some v | _ => None end
  | _ => None
  end.

End Json.
Export Json.

(** ** HTTP responses *)

Module Http.

(** The JSON body of an error response: [{error: {message, type, param?, code?}}]. *)
Record ErrorEnvelope := {
  err_message : jsstring;
  err_type : jsstring;
  err_param : option jsstring;
  err_code : option jsstring
}.

(** [usage] of a chat completion. *)
Record Usage := {
  prompt_tokens : Z;
  completion_tokens : Z;
  total_tokens : Z
}.

(** A [chat.completion] object. The identifier is [chatcmpl-] followed by
    a generated UUID. *)
Record ChatCompletionResponse := {
  cc_id : jsstring;
  cc_object : jsstring;
  cc_created : Z;
  cc_model : jsstring;
  cc_index : Z;
  cc_role : jsstring;
  cc_content : jsstring;
  cc_finish_reason : jsstring;
  cc_usage : Usage
}.

(** [delta] of a streamed chunk: [{role}], [{content}] or [{}]. *)
Inductive Delta :=
| DeltaRole (role : jsstring)
| DeltaContent (content : value)
| DeltaEmpty.

(** A [chat.completion.chunk] object with its single choice. *)
Record StreamChunk := {
  ch_id : jsstring;
  ch_object : jsstring;
  ch_created : Z;
  ch_model : jsstring;
  ch_index : Z;
  ch_delta : Delta;
  ch_finish_reason : option jsstring
}.

(** What is enqueued on the output stream: [data: <chunk>] followed by a
    blank line, or the sentinel [data: [DONE]]. *)
Inductive Event :=
| Data (c : StreamChunk)
| Done.

(** How an output stream ends: [controller.close()] or
    [controller.error(e)]. *)
Inductive StreamEnd :=
| Closed
| Errored (e : exn).

(** A [chat.completion] object whose content is not a string, which the
    controller builds when the reply of the binding carries such a
    [response]. Its [completion_tokens] and [total_tokens] come from
    [Math.ceil(content.length / 4)] of a value that is not a string ([NaN],
    written [null], for a number or [true]); the embedding keeps the
    content and the prompt tokens and leaves these two counts out. *)
Record LooseCompletionResponse := {
  lc_id : jsstring;
  lc_object : jsstring;
  lc_created : Z;
  lc_model : jsstring;
  lc_index : Z;
  lc_role : jsstring;
  lc_content : value;
  lc_finish_reason : jsstring;
  lc_prompt_tokens : Z
}.

Inductive Body :=
| NoBody
| ErrorBody (e : ErrorEnvelope)
| CompletionBody (c : ChatCompletionResponse)
| StreamBody (events : list Event) (ending : StreamEnd)
| LooseCompletionBody (c : LooseCompletionResponse).

(** A header name in lower case (the ASCII letters). *)
Definition lowercase (name : jsstring) : jsstring :=
  map (fun c => if (65 <=? c)%N && (c <=? 90)%N then (c + 32)%N else c) name.

(** A [Headers] object: the value of each header, under its name in lower
    case. [get], [set] and the constructor take a name in any letter
    case. *)
Record Headers := { header_map : gmap jsstring jsstring }.

(** [new Headers()] *)
#[export] Instance headers_empty : Empty Headers := {| header_map := ∅ |}.

(** [headers.get(name)] *)
#[export] Instance headers_lookup : Lookup jsstring jsstring Headers :=
  fun name h => header_map h !! lowercase name.

(** [headers.set(name, value)], and an entry [name: value] of the object
    literal given to the constructor. *)
#[export] Instance headers_insert : Insert jsstring jsstring Headers :=
  fun name value h => {| header_map := <[lowercase name := value]> (header_map h) |}.

Record Response := {
  status : Z;
  headers : Headers;
  body : Body
}.

(** [n.toString()] for an integer. *)
Definition toString (n : Z) : jsstring := js (pretty n).

(** [headers.set(name, value)] for literals. *)
Definition set (name value : string) (h : Headers) : Headers :=
  <[js name := js value]> h.

End Http.
Export Http.

(** ** middleware/security *)

Module Security.

Definition addSecurityHeaders (h : Headers) : Headers :=
  let h := set "Strict-Transport-Security" "max-age=31536000; includeSubDomains" h in
  let h := set "X-Content-Type-Options" "nosniff" h in
  let h := set "X-Frame-Options" "DENY" h in
  let h := set "X-XSS-Protection" "1; mode=block" h in
  let h := set "Referrer-Policy" "strict-origin-when-cross-origin" h in
  let h := set "Content-Security-Policy" "default-src 'none'; frame-ancestors 'none'" h in
  set "Permissions-Policy"
    "accelerometer=(), camera=(), geolocation=(), gyroscope=(), magnetometer=(), microphone=(), payment=(), usb=()" h.

Definition secured (r : Response) : Response :=
  {| status := status r; headers := addSecurityHeaders (headers r); body := body r |}.

End Security.
Export Security.

(** ** types: createApiResponse *)

Module Types.

(** [createApiResponse({error: {message, type}}, {status, headers})] *)
Definition createApiResponse (message type : string) (st : Z)
    (init_headers : Headers) : Response :=
  {| status := st;
     headers := set "Content-Type" "application/json" init_headers;
     body := ErrorBody {| err_message := js message; err_type := js type;
                          err_param := None; err_code := None |} |}.

End Types.
Export Types.

(** ** utils *)

Module Utils.

(** An optional field of the envelope is present when the argument is
    truthy: [...(param && { param })]. *)
Definition optional_field (p : option jsstring) : option jsstring :=
  match p with
  | Some (c :: s) => Some (c :: s)
  | _ => None
  end.

Definition createErrorResponse (message type : jsstring)
    (param code : option jsstring) (st : Z) : Response :=
  {| status := st;
     headers := set "Content-Type" "application/json" ∅;
     body := ErrorBody {| err_message := message; err_type := type;
                          err_param := optional_field param;
                          err_code := optional_field code |} |}.

(** The call shape the validator uses: three arguments, status 400 by
    default. *)
Definition invalid_request (message : jsstring) (param : string) : Response :=
  createErrorResponse message (js "invalid_request_error") (Some (js param)) None 400.

(** [Math.ceil(n / d)] for an integer [n] and a positive integer [d]. *)
Definition ceil_div (n d : Z) : Z := (- ((- n) / d))%Z.

(** [calculateTokens(text)] = [Math.ceil(text.length / 4)] *)
Definition calculateTokens (text : jsstring) : Z :=
  ceil_div (Z.of_nat (length text)) 4.

(** What a call gives: a value, or an exception. *)
Inductive outcome (A : Type) :=
| Return (a : A)
| Throw (e : exn).
Arguments Return {A} a.
Arguments Throw {A} e.

(** [['system', 'user', 'assistant'].includes(role)] *)
Definition valid_role (role : value) : bool :=
  match role with
  | JStr s => str_eqb s (js "system") || str_eqb s (js "user") || str_eqb s (js "assistant")
  | _ => false
  end.

Definition invalid_role_message (index : nat) : jsstring :=
  js "message at index " ++ toString (Z.of_nat index)
    ++ js " has invalid role. Must be one of: system, user, assistant".

Definition empty_content_message (index : nat) : jsstring :=
  js "message at index " ++ toString (Z.of_nat index)
    ++ js " must have non-empty content string".

(** The body of the [for] loop over [body.messages.entries()], from
    position [index] on. [None]: the loop ran to its end. *)
Fixpoint check_messages (index : nat) (ms : list value) : outcome (option Response) :=
  match ms with
  | [] => Return None
  | message :: rest =>
      match get message (js "content") with
      | Throws => Throw (TypeError (js "Cannot read properties of null (reading 'content')"))
      | content =>
          if negb (prop_truthy (get message (js "role")))
             || negb (match get message (js "role") with Val r => valid_role r | _ => false end)
          then Return (Some (invalid_request (invalid_role_message index) "messages"))
          else if negb (prop_truthy content)
          then Return (Some (invalid_request (empty_content_message index) "messages"))
          else check_messages (S index) rest
      end
  end.

Definition temperature_ok (t : value) : bool :=
  match t with
  | JNum n => negb (num_ltb n (of_Z 0)) && negb (num_ltb (of_Z 2) n)
  | _ => false
  end.

Definition max_tokens_ok (t : value) : bool :=
  match t with
  | JNum n => negb (num_ltb n (of_Z 1))
  | _ => false
  end.

(** The three checks on optional fields. Each is [if (body.f !== undefined
    && ...) return createErrorResponse(...)]: [None] when the [if] is not
    taken. *)
Definition check_temperature (body : value) : option Response :=
  match get body (js "temperature") with
  | Val t =>
      if temperature_ok t then None
      else Some (invalid_request (js "temperature must be a number between 0 and 2") "temperature")
  | _ => None
  end.

Definition check_max_tokens (body : value) : option Response :=
  match get body (js "max_tokens") with
  | Val k =>
      if max_tokens_ok k then None
      else Some (invalid_request (js "max_tokens must be a positive number") "max_tokens")
  | _ => None
  end.

Definition check_stream (body : value) : option Response :=
  match get body (js "stream") with
  | Val s =>
      if is_boolean s then None
      else Some (invalid_request (js "stream must be a boolean value") "stream")
  | _ => None
  end.

(** [validateRequestBody(body)]: [Return None] is the source's [null]
    (valid); reading a property of a [null] body or message throws. *)
Definition validateRequestBody (body : value) : outcome (option Response) :=
  match get body (js "model") with
  | Throws => Throw (TypeError (js "Cannot read properties of null (reading 'model')"))
  | model =>
      if negb (prop_truthy model)
      then Return (Some (invalid_request (js "model is required") "model"))
      else
        match get body (js "messages") with
        | Val (JArr (m :: ms)) =>
            match check_messages 0 (m :: ms) with
            | Return None =>
                match check_temperature body with
                | Some r => Return (Some r)
                | None =>
                    match check_max_tokens body with
                    | Some r => Return (Some r)
                    | None => Return (check_stream body)
                    end
                end
            | stop => stop
            end
        | _ => Return (Some (invalid_request
                 (js "messages array is required and cannot be empty") "messages"))
        end
  end.

End Utils.
Export Utils.

(** ** middleware/auth *)

Module Auth.

(** The class [\s] of a regular expression. *)
Definition is_space (c : N) : bool :=
  (N.leb 9 c && N.leb c 13) || N.eqb c 32 || N.eqb c 160 || N.eqb c 5760
  || (N.leb 8192 c && N.leb c 8202) || N.eqb c 8232 || N.eqb c 8233
  || N.eqb c 8239 || N.eqb c 8287 || N.eqb c 12288 || N.eqb c 65279.

(** What [.] does not match: the line terminators. *)
Definition is_line_terminator (c : N) : bool :=
  N.eqb c 10 || N.eqb c 13 || N.eqb c 8232 || N.eqb c 8233.

(** Canonical form of a code unit under the flag [i], on the letters of
    the pattern: an ASCII letter and its other case are the same. *)
Definition fold_case (c : N) : N :=
  if N.leb 97 c && N.leb c 122 then (c - 32)%N else c.

(** [s] starts with the literal [p], letter case ignored. *)
Fixpoint starts_with_ci (s p : jsstring) {struct p} : bool :=
  match p, s with
  | [], _ => true
  | _ :: _, [] => false
  | c :: p', d :: s' => N.eqb (fold_case c) (fold_case d) && starts_with_ci s' p'
  end.

(** Length of the longest prefix of white space. *)
Fixpoint spaces (s : jsstring) : nat :=
  match s with
  | c :: r => if is_space c then S (spaces r) else O
  | [] => O
  end.

(** [(.+)$] on [s]: all of [s], when it is not empty and has no line
    terminator. *)
Definition rest_of_line (s : jsstring) : option jsstring :=
  match s with
  | [] => None
  | _ => if forallb (fun c => negb (is_line_terminator c)) s then Some s else None
  end.

(** [\s+(.+)$] on [s], the greedy [\s+] first taking [k] code units and
    giving them back one at a time while the rest does not match. *)
Fixpoint spaces_then_rest (k : nat) (s : jsstring) : option jsstring :=
  match k with
  | O => None
  | S k' =>
      match rest_of_line (drop (S k') s) with
      | Some token => Some token
      | None => spaces_then_rest k' s
      end
  end.

(** [authHeader.match(/^Bearer\s+(.+)$/i)]: the capture [match[1]], or
    [None] when there is no match. *)
Definition match_bearer (authHeader : jsstring) : option jsstring :=
  if starts_with_ci authHeader (js "Bearer") then
    let r := drop 6 authHeader in
    spaces_then_rest (spaces r) r
  else None.

(** [verifyApiKey(request, env)], given the [Authorization] header and
    whether the read of the key store fails. [None]: the request passes. *)
Definition verifyApiKey (authorization : option jsstring) (key_store_fails : bool)
    : option Response :=
  match authorization with
  | None | Some [] =>
      Some (createApiResponse
              "No API key provided. Include as Bearer token in Authorization header"
              "authentication_error" 401 ∅)
  | Some authHeader =>
      match match_bearer authHeader with
      | None =>
          Some {| status := 401;
                  headers := set "Content-Type" "application/json" ∅;
                  body := ErrorBody
                    {| err_message :=
                         jsq "Invalid Authorization header format. Use 'Bearer YOUR-API-KEY'";
                       err_type := js "authentication_error";
                       err_param := None; err_code := None |} |}
      | Some apiKey =>
          if key_store_fails
          then Some (createApiResponse "Error verifying API key" "server_error" 500 ∅)
          else None
      end
  end.

End Auth.
Export Auth.

(** ** middleware/rateLimit *)

Module RateLimit.

Definition RATE_LIMIT : Z := 100.
Definition WINDOW_SIZE : Z := 60 * 60.

Record RateLimitData := { count : Z; timestamp : Z }.

Record RateLimitInfo := { remaining : Z; reset : Z; total : Z }.

(** The key-value namespace. A stored record carries the time, in
    seconds, at which it expires. The namespace holds the JSON text of a
    record; [JSON.parse (JSON.stringify d)] is [d] for a record of two
    integers, and the embedding keeps the record. [puts] lists the writes
    performed, the latest first; a namespace that is not [reachable]
    throws on every call. *)
Record KV := {
  entries : gmap jsstring (RateLimitData * Z);
  puts : list (jsstring * RateLimitData * Z);
  reachable : bool
}.

(** [kv.get(key)] at time [now]: [null] for a key that is absent or has
    expired. *)
Definition kv_get (kv : KV) (now : Z) (key : jsstring) : outcome (option RateLimitData) :=
  if reachable kv then
    Return (match entries kv !! key with
            | Some (d, expires) => if (now <? expires)%Z then Some d else None
            | None => None
            end)
  else Throw (Error (js "KV GET failed")).

(** [kv.put(key, value, {expirationTtl})] at time [now]. *)
Definition kv_put (kv : KV) (now : Z) (key : jsstring) (d : RateLimitData) (ttl : Z)
    : outcome KV :=
  if reachable kv then
    Return {| entries := <[key := (d, (now + ttl)%Z)]> (entries kv);
              puts := (key, d, ttl) :: puts kv;
              reachable := true |}
  else Throw (Error (js "KV PUT failed")).

(** [s.replace(p, '')] for a string pattern: the first occurrence of [p]
    is removed. *)
Fixpoint remove_first (p s : jsstring) : jsstring :=
  if startsWith s p then drop (length p) s
  else match s with
       | [] => []
       | c :: r => c :: remove_first p r
       end.

Inductive Result :=
| Info (i : RateLimitInfo)
| Reply (r : Response).

Definition exceeded_headers (reset : Z) : Headers :=
  <[js "X-RateLimit-Reset" := toString reset]>
    (<[js "X-RateLimit-Remaining" := js "0"]>
       (<[js "X-RateLimit-Limit" := toString RATE_LIMIT]> ∅)).

Definition server_error : Response :=
  createApiResponse "Error checking rate limit" "server_error" 500 ∅.

(** [request.headers.get('Authorization')?.replace('Bearer ', '')] *)
Definition apiKey_of (authorization : option jsstring) : option jsstring :=
  remove_first (js "Bearer ") <$> authorization.

(** The response to a request over the limit. *)
Definition exceeded (reset : Z) : Response :=
  createApiResponse "Rate limit exceeded" "rate_limit_error" 429 (exceeded_headers reset).

Definition missing_key : Response :=
  createApiResponse "Missing API key for rate limiting" "rate_limit_error" 429 ∅.

(** [checkRateLimit(request, env)], given the [Authorization] header, the
    reading of [Date.now()] and the namespace; the namespace after the
    call is returned with the result. *)
Definition checkRateLimit (authorization : option jsstring) (clock_ms : Z) (kv : KV)
    : Result * KV :=
  match apiKey_of authorization with
  | None | Some [] => (Reply missing_key, kv)
  | Some apiKey =>
      let now := (clock_ms / 1000)%Z in
      let rateLimitKey := js "ratelimit:" ++ apiKey in
      match kv_get kv now rateLimitKey with
      | Throw _ => (Reply server_error, kv)
      | Return currentData =>
          let data :=
            match currentData with
            | Some d =>
                if (WINDOW_SIZE <=? now - timestamp d)%Z
                then {| count := 0; timestamp := now |}
                else d
            | None => {| count := 0; timestamp := now |}
            end in
          if (RATE_LIMIT <=? count data)%Z then
            let reset := (timestamp data + WINDOW_SIZE)%Z in
            (Reply (exceeded reset), kv)
          else
            let data := {| count := (count data + 1)%Z; timestamp := timestamp data |} in
            match kv_put kv now rateLimitKey data WINDOW_SIZE with
            | Throw _ => (Reply server_error, kv)
            | Return kv' =>
                (Info {| remaining := (RATE_LIMIT - count data)%Z;
                         reset := (timestamp data + WINDOW_SIZE)%Z;
                         total := RATE_LIMIT |},
                 kv')
            end
      end
  end.

(** The requests of one client, in order: each is served at its own clock
    reading, on the namespace the previous one left. *)
Fixpoint serve (authorization : option jsstring) (clocks : list Z) (kv : KV)
    : list Result * KV :=
  match clocks with
  | [] => ([], kv)
  | c :: cs =>
      let '(r, kv1) := checkRateLimit authorization c kv in
      let '(rs, kv2) := serve authorization cs kv1 in
      (r :: rs, kv2)
  end.

End RateLimit.
Export RateLimit.

(** ** types: the chat completion request *)

Module Request.

Record ChatMessage := { role : jsstring; content : jsstring }.

(** [ChatCompletionRequest]; an optional field that is absent is [None]. *)
Record ChatCompletionRequest := {
  model : jsstring;
  messages : list ChatMessage;
  temperature : option number;
  max_tokens : option number;
  stream : option bool
}.

Definition message_value (m : ChatMessage) : value :=
  JObj [(js "role", JStr (role m)); (js "content", JStr (content m))].

Definition optional_member (name : string) (v : option value) : list (jsstring * value) :=
  match v with Some w => [(js name, w)] | None => [] end.

(** The request as the validator, which takes any value, sees it. *)
Definition body_value (b : ChatCompletionRequest) : value :=
  JObj ([(js "model", JStr (model b));
         (js "messages", JArr (map message_value (messages b)))]
        ++ optional_member "temperature" (JNum <$> temperature b)
        ++ optional_member "max_tokens" (JNum <$> max_tokens b)
        ++ optional_member "stream" (JBool <$> stream b)).

End Request.
Export Request.

(** ** The platform's UTF-8 decoder *)

Module TextDecoder.

(** The state of the decoder between two bytes: the code point being
    assembled, the number of bytes it still needs, and the range allowed
    for the next byte. *)
Record State := {
  code_point : N;
  bytes_needed : nat;
  lower_boundary : N;
  upper_boundary : N
}.

Definition idle : State :=
  {| code_point := 0; bytes_needed := 0; lower_boundary := 128; upper_boundary := 191 |}.

Definition in_range (lo hi b : N) : bool := ((lo <=? b) && (b <=? hi))%N.

(** A byte read when no sequence is open: an ASCII byte is a code point,
    a lead byte opens a sequence of two, three or four bytes, any other
    byte is an error. *)
Definition lead (b : N) : State * list N :=
  if (b <=? 127)%N then (idle, [b])
  else if in_range 194 223 b then
    ({| code_point := N.land b 31; bytes_needed := 1;
        lower_boundary := 128; upper_boundary := 191 |}, [])
  else if in_range 224 239 b then
    ({| code_point := N.land b 15; bytes_needed := 2;
        lower_boundary := if (b =? 224)%N then 160%N else 128%N;
        upper_boundary := if (b =? 237)%N then 159%N else 191%N |}, [])
  else if in_range 240 244 b then
    ({| code_point := N.land b 7; bytes_needed := 3;
        lower_boundary := if (b =? 240)%N then 144%N else 128%N;
        upper_boundary := if (b =? 244)%N then 143%N else 191%N |}, [])
  else (idle, [65533%N]).

(** One byte: the next state and the code points given out. A byte that
    cannot continue the open sequence ends it with U+FFFD and is read again
    as the first byte of what follows. *)
Definition step (st : State) (b : N) : State * list N :=
  match bytes_needed st with
  | O => lead b
  | S n =>
      if in_range (lower_boundary st) (upper_boundary st) b then
        let cp := N.lor (N.shiftl (code_point st) 6) (N.land b 63) in
        match n with
        | O => (idle, [cp])
        | S _ =>
            ({| code_point := cp; bytes_needed := n;
                lower_boundary := 128; upper_boundary := 191 |}, [])
        end
      else let '(st', out) := lead b in (st', 65533%N :: out)
  end.


(** The code points of the bytes [bs], read from the state [st]; a
    sequence that the end of the input leaves open gives U+FFFD. *)
Fixpoint code_points (st : State) (bs : list Byte.byte) : list N :=
  match bs with
  | [] => match bytes_needed st with O => [] | S _ => [65533%N] end
  | b :: rest =>
      snd (step st (Byte.to_N b)) ++ code_points (fst (step st (Byte.to_N b))) rest
  end.

(** A byte order mark at the head of the output is dropped. *)
Definition strip_bom (cps : list N) : list N :=
  match cps with
  | c :: rest => if (c =? 65279)%N then rest else cps
  | [] => []
  end.

(** The UTF-16 code units of a code point. *)
Definition code_units (cp : N) : list N :=
  if (cp <? 65536)%N then [cp]
  else [ (55296 + (cp - 65536) / 1024)%N; (56320 + (cp - 65536) mod 1024)%N ].

(** [new TextDecoder().decode(value)]: a decoder of its own for the bytes
    of one read, that replaces what is not UTF-8 by U+FFFD. *)
Definition decode (value : list Byte.byte) : jsstring :=
  flat_map code_units (strip_bom (code_points idle value)).

(** The bytes of an ASCII literal, every apostrophe of the literal
    standing for a double quote. *)
Definition bytes_q (s : string) : list Byte.byte :=
  map (fun b => if Byte.eqb b Byte.x27 then Byte.x22 else b) (list_byte_of_string s).

End TextDecoder.

(** ** services/aiService *)

Module AIService.

Record Capabilities := {
  embeddings : option bool;
  chat : option bool;
  completions : option bool;
  translation : option bool
}.

(** An entry of the catalogue [models.json]; of its fields the pipeline
    reads [id] and [capabilities]. *)
Record AIModel := { id : jsstring; capabilities : option Capabilities }.

(** The reads of a stream as the transcoder has them: the texts
    [new TextDecoder().decode(value)] of the chunks its reader gives, in
    order, and how the stream ends, [None] for [done] and [Some e] for a
    read that fails with [e]. *)
Record ReadableStream := { chunks : list jsstring; failure : option exn }.

(** A [ReadableStream] of bytes: the chunks ([Uint8Array]) its reader
    gives, in order, and how it ends. *)
Record ByteStream := { byte_chunks : list (list Byte.byte); byte_failure : option exn }.

(** The options [ai.run] is called with. *)
Record RunOptions := {
  run_messages : list ChatMessage;
  run_stream : bool;
  run_max_tokens : number;
  run_temperature : number
}.

(** What [ai.run] resolves to: nothing ([null], [undefined], or an object
    without [response]), an object whose [response] is a string, an object
    whose [response] is another value, or a stream. With a stream comes
    the number of its chunks that the reader of the engine's relay has
    taken when a failure of the stream errors the relay: it is for the
    scheduler to decide, and plays no part when the stream ends
    normally. *)
Inductive AiReply :=
| Absent
| Text (response : jsstring)
| Bytes (stream : ByteStream) (taken : nat)
| Other (response : value).

(** What [generateChatCompletion] resolves to: [{content, finishReason}]
    with a content that is a string, a stream, or [{content,
    finishReason}] with a content that is not a string. *)
Inductive Completion :=
| Complete (content finishReason : jsstring)
| Streaming (stream : ByteStream)
| Loose (content : value) (finishReason : jsstring).

(** [x || d] on an optional number. *)
Definition or_default (x : option number) (d : number) : number :=
  match x with
  | Some n => if num_is_zero n then d else n
  | None => d
  end.

(** The [catch] of [generateChatCompletion]. *)
Definition rethrow (e : exn) : exn :=
  if instanceof_Error e then e else Error (js "AI service error").

Section Engine.

(** The catalogue and the inference binding. *)
Variable models : list AIModel.
Variable run : jsstring -> RunOptions -> outcome AiReply.

(** [models.find(m => m.id === id)] *)
Definition find_model (model_id : jsstring) : option AIModel :=
  List.find (fun m => str_eqb (id m) model_id) models.

(** [modelInfo.capabilities?.chat], as a condition. *)
Definition supports_chat (m : AIModel) : bool :=
  match capabilities m with
  | Some c => match chat c with Some b => b | None => false end
  | None => false
  end.

Definition valid_message (msg : ChatMessage) : bool :=
  match content msg with [] => false | _ => true end.

(** The stream handed out in streaming mode, as its reader sees it. It
    relays the stream of [ai.run]: every chunk is enqueued as it is read,
    and the relay is closed when the upstream is done. When a read of the
    upstream fails, [controller.error] discards the chunks that are
    enqueued and not yet taken: the reader has the [taken] first chunks,
    then the failure. The relay is errored at once when [ai.run] fails or
    gives no stream. *)
Definition relay (r : outcome AiReply) : ByteStream :=
  match r with
  | Return (Bytes up taken) =>
      match byte_failure up with
      | None => up
      | Some e => {| byte_chunks := take taken (byte_chunks up); byte_failure := Some e |}
      end
  | Return _ =>
      {| byte_chunks := [];
         byte_failure := Some (Error (js "Expected streaming response from AI service")) |}
  | Throw e => {| byte_chunks := []; byte_failure := Some e |}
  end.

Definition generateChatCompletion (params : ChatCompletionRequest) : outcome Completion :=
  match find_model (model params) with
  | None => Throw (Error (js "Model " ++ model params ++ js " not found"))
  | Some modelInfo =>
      if negb (supports_chat modelInfo)
      then Throw (Error (js "Model " ++ model params
                           ++ js " does not support chat completions"))
      else
        let validMessages := filter (fun m => valid_message m = true) (messages params) in
        match validMessages with
        | [] => Throw (Error (js "No valid messages with content found"))
        | _ =>
            let options (streaming : bool) :=
              {| run_messages := validMessages;
                 run_stream := streaming;
                 run_max_tokens := or_default (max_tokens params) (of_Z 256);
                 run_temperature := or_default (temperature params) (Num 7 (-1)) |} in
            if default false (stream params) then
              Return (Streaming (relay (run (model params) (options true))))
            else
              match run (model params) (options false) with
              | Throw e => Throw (rethrow e)
              | Return (Text (c :: response)) => Return (Complete (c :: response) (js "stop"))
              | Return (Other (JStr (c :: response))) =>
                  Return (Complete (c :: response) (js "stop"))
              | Return (Other response) =>
                  if truthy response then Return (Loose response (js "stop"))
                  else Throw (Error (js "Invalid response from AI service"))
              | Return _ => Throw (Error (js "Invalid response from AI service"))
              end
        end
  end.

End Engine.

End AIService.
Export AIService.

(** ** controllers/chatController *)

Module ChatController.

(** The state of [start]: its two variables, the events enqueued so far
    (oldest first), and how many times the clock and the identifier
    generator have been read. *)
Record Transcoder := {
  buffer : jsstring;
  sentRole : bool;
  enqueued : list Event;
  ticks : nat;
  uuids : nat
}.

Definition initial : Transcoder :=
  {| buffer := []; sentRole := false; enqueued := []; ticks := 0; uuids := 0 |}.

Definition chunk (chunkId : jsstring) (timestamp : Z) (model : jsstring)
    (delta : Delta) (finish_reason : option jsstring) : StreamChunk :=
  {| ch_id := chunkId; ch_object := js "chat.completion.chunk"; ch_created := timestamp;
     ch_model := model; ch_index := 0; ch_delta := delta;
     ch_finish_reason := finish_reason |}.

Definition rate_limit_headers (info : option RateLimitInfo)
    (h : Headers) : Headers :=
  match info with
  | Some i =>
      <[js "X-RateLimit-Reset" := toString (reset i)]>
        (<[js "X-RateLimit-Remaining" := toString (remaining i)]>
           (<[js "X-RateLimit-Limit" := toString (total i)]> h))
  | None => h
  end.

Section Controller.

(** [Date.now()] at its k-th call, [crypto.randomUUID()] at its k-th
    call, and the service. *)
Variable clock : nat -> Z.
Variable randomUUID : nat -> jsstring.
Variable models : list AIModel.
Variable run : jsstring -> RunOptions -> outcome AiReply.

(** [Math.floor(Date.now() / 1000)] at the k-th reading. *)
Definition seconds (k : nat) : Z := (clock k / 1000)%Z.

Definition fresh_id (k : nat) : jsstring := js "chatcmpl-" ++ randomUUID k.

Definition enqueue (e : Event) (st : Transcoder) : Transcoder :=
  {| buffer := buffer st; sentRole := sentRole st; enqueued := enqueued st ++ [e];
     ticks := ticks st; uuids := uuids st |}.

(** [processChunk(chunk)]. Both [JSON.parse] and the read of
    [data.response] may throw inside the [try]; what was done before
    the exception stays done. *)
Definition processChunk (model : jsstring) (line : jsstring) (st : Transcoder)
    : Transcoder :=
  let jsonStr := if startsWith line (js "data: ") then slice_from line 6 else line in
  if bool_decide (jsonStr = []) || str_eqb jsonStr (js "[DONE]") then st
  else
    match Json.parse jsonStr with
    | None => st
    | Some data =>
        let timestamp := seconds (ticks st) in
        let chunkId := fresh_id (uuids st) in
        let st :=
          {| buffer := buffer st; sentRole := sentRole st; enqueued := enqueued st;
             ticks := S (ticks st); uuids := S (uuids st) |} in
        let st :=
          if negb (sentRole st) then
            let roleChunk :=
              chunk chunkId timestamp model (DeltaRole (js "assistant")) None in
            let st := enqueue (Data roleChunk) st in
            {| buffer := buffer st; sentRole := true; enqueued := enqueued st;
               ticks := ticks st; uuids := uuids st |}
          else st in
        match get data (js "response") with
        | Val response =>
            if truthy response then
              let contentChunk :=
                chunk chunkId timestamp model (DeltaContent response) None in
              enqueue (Data contentChunk) st
            else st
        | _ => st
        end
    end.

Definition set_buffer (b : jsstring) (st : Transcoder) : Transcoder :=
  {| buffer := b; sentRole := sentRole st; enqueued := enqueued st;
     ticks := ticks st; uuids := uuids st |}.

(** [while (buffer.includes('\n')) { ... }], at most [n] rounds;
    [buffer.includes('\n')] holds when [indexOf] finds a position. The loop
    is entered with [n] the length of the buffer, and every round shortens
    the buffer, so it ends for want of a newline ([lines_loop_feed]). *)
Fixpoint lines_loop (n : nat) (model : jsstring) (st : Transcoder) : Transcoder :=
  match n with
  | O => st
  | S n' =>
      match indexOf (buffer st) 10 with
      | None => st
      | Some newlineIndex =>
          let line := slice_to (buffer st) newlineIndex in
          let st := set_buffer (slice_from (buffer st) (newlineIndex + 1)) st in
          lines_loop n' model
            (match line with [] => st | _ => processChunk model line st end)
      end
  end.

(** The branch [if (done)] of the reading loop. *)
Definition finish (model : jsstring) (st : Transcoder) : Transcoder :=
  let st := match buffer st with [] => st | b => processChunk model b st end in
  let doneEvent :=
    chunk (fresh_id (uuids st)) (seconds (ticks st)) model DeltaEmpty (Some (js "stop")) in
  let st :=
    {| buffer := buffer st; sentRole := sentRole st; enqueued := enqueued st;
       ticks := S (ticks st); uuids := S (uuids st) |} in
  enqueue Done (enqueue (Data doneEvent) st).

(** [while (true) { const {done, value} = await reader.read(); ... }]
    over what the reader gives. *)
Fixpoint read_loop (model : jsstring) (reads : list jsstring) (failure : option exn)
    (st : Transcoder) : Transcoder * StreamEnd :=
  match reads with
  | text :: rest =>
      let st := set_buffer (buffer st ++ text) st in
      read_loop model rest failure (lines_loop (length (buffer st)) model st)
  | [] =>
      match failure with
      | Some e => (st, Errored e)
      | None => (finish model st, Closed)
      end
  end.

(** The reads of the upstream, each decoded on its own:
    [new TextDecoder().decode(value)]. *)
Definition decoded (upstream : ByteStream) : ReadableStream :=
  {| chunks := TextDecoder.decode <$> byte_chunks upstream;
     failure := byte_failure upstream |}.

(** [start(controller)] of the transformed stream, on the decoded reads
    of the upstream: what it enqueues and how it ends the output. *)
Definition start (model : jsstring) (upstream : ReadableStream)
    : list Event * StreamEnd :=
  let '(st, ending) := read_loop model (chunks upstream) (failure upstream) initial in
  (enqueued st, ending).

(** The [catch] of [createChatCompletion]. *)
Definition caught (e : exn) : Response :=
  secured
    {| status := 500;
       headers := set "Content-Type" "application/json" ∅;
       body := ErrorBody
         {| err_message := if instanceof_Error e then message_of e
                           else js "An error occurred";
            err_type := js "server_error";
            err_param := None; err_code := None |} |}.

Definition usage_of (body : ChatCompletionRequest) (content : jsstring) : Usage :=
  let promptTokens :=
    fold_left (fun acc msg => (acc + calculateTokens (Request.content msg))%Z)
      (messages body) 0%Z in
  let completionTokens := calculateTokens content in
  {| prompt_tokens := promptTokens;
     completion_tokens := completionTokens;
     total_tokens := (promptTokens + completionTokens)%Z |}.

(** [createChatCompletion(request, rateLimitInfo)] on the decoded body
    of the request. *)
Definition createChatCompletion (body : ChatCompletionRequest)
    (rateLimitInfo : option RateLimitInfo) : Response :=
  match validateRequestBody (body_value body) with
  | Throw e => caught e
  | Return (Some validationError) => secured validationError
  | Return None =>
      if default false (stream body) then
        match generateChatCompletion models run
                {| model := model body; messages := messages body;
                   temperature := temperature body; max_tokens := max_tokens body;
                   stream := Some true |} with
        | Throw e => caught e
        | Return (Complete _ _) => caught (Error (js "Expected streaming response"))
        | Return (Loose _ _) => caught (Error (js "Expected streaming response"))
        | Return (Streaming upstream) =>
            let '(events, ending) := start (model body) (decoded upstream) in
            secured
              {| status := 200;
                 headers :=
                   rate_limit_headers rateLimitInfo
                     (set "Connection" "keep-alive"
                        (set "Cache-Control" "no-cache"
                           (set "Content-Type" "text/event-stream" ∅)));
                 body := StreamBody events ending |}
        end
      else
        match generateChatCompletion models run
                {| model := model body; messages := messages body;
                   temperature := temperature body; max_tokens := max_tokens body;
                   stream := Some false |} with
        | Throw e => caught e
        | Return (Streaming _) => caught (Error (js "Unexpected streaming response"))
        | Return (Complete content finishReason) =>
            let timestamp := seconds 0 in
            secured
              {| status := 200;
                 headers :=
                   rate_limit_headers rateLimitInfo
                     (set "Content-Type" "application/json" ∅);
                 body := CompletionBody
                   {| cc_id := fresh_id 0;
                      cc_object := js "chat.completion";
                      cc_created := timestamp;
                      cc_model := model body;
                      cc_index := 0;
                      cc_role := js "assistant";
                      cc_content := content;
                      cc_finish_reason := finishReason;
                      cc_usage := usage_of body content |} |}
        | Return (Loose content finishReason) =>
            let timestamp := seconds 0 in
            secured
              {| status := 200;
                 headers :=
                   rate_limit_headers rateLimitInfo
                     (set "Content-Type" "application/json" ∅);
                 body := LooseCompletionBody
                   {| lc_id := fresh_id 0;
                      lc_object := js "chat.completion";
                      lc_created := timestamp;
                      lc_model := model body;
                      lc_index := 0;
                      lc_role := js "assistant";
                      lc_content := content;
                      lc_finish_reason := finishReason;
                      lc_prompt_tokens :=
                        fold_left
                          (fun acc msg => (acc + calculateTokens (Request.content msg))%Z)
                          (messages body) 0%Z |} |}
        end
  end.

End Controller.

End ChatController.
Export ChatController.

(** ** controllers/modelsController *)

Module ModelsController.

(** The body [{object: 'list', data: models}]. *)
Record ModelList := { ml_object : jsstring; ml_data : list AIModel }.

(** What the worker answers: a response whose body is one of [Body], or
    the listing of the catalogue. *)
Inductive Answer :=
| Plain (r : Response)
| Listing (st : Z) (h : Headers) (l : ModelList).

Definition answer_status (a : Answer) : Z :=
  match a with Plain r => status r | Listing st _ _ => st end.

Definition answer_headers (a : Answer) : Headers :=
  match a with Plain r => headers r | Listing _ h _ => h end.

(** [addSecurityHeaders(response.headers)] *)
Definition secured_answer (a : Answer) : Answer :=
  match a with
  | Plain r => Plain (secured r)
  | Listing st h l => Listing st (addSecurityHeaders h) l
  end.

(** [listModels()]. [listAvailableModels] returns the catalogue, and its
    [catch] and the one of [listModels] have nothing to catch. *)
Definition listModels (models : list AIModel) : Answer :=
  secured_answer
    (Listing 200 (set "Content-Type" "application/json" ∅)
       {| ml_object := js "list"; ml_data := models |}).

End ModelsController.
Export ModelsController.

(** ** services/aiService: getModelById *)

Module Catalogue.

(** [getModelById(modelId)] *)
Definition getModelById (models : list AIModel) (modelId : jsstring) : option AIModel :=
  List.find (fun m => str_eqb (id m) modelId) models.

End Catalogue.
Export Catalogue.

(** ** router and the worker's entry point *)

Module Router.

(** What the pipeline reads of a request: its method, the pathname of its
    URL, its [Authorization] header and what [request.json()] gives. *)
Record Request := {
  req_method : jsstring;
  req_pathname : jsstring;
  req_authorization : option jsstring;
  req_json : outcome ChatCompletionRequest
}.

(** The bindings of the environment: the rate-limit namespace, whether the
    read of the key namespace fails, and the inference binding. *)
Record Env := {
  RATE_LIMIT_KV : KV;
  API_KEYS_fails : bool;
  AI : jsstring -> RunOptions -> outcome AiReply
}.

(** [handlePreflight()]: a response without body, of status 200. *)
Definition handlePreflight : Response :=
  {| status := 200;
     headers :=
       addSecurityHeaders
         (set "Access-Control-Max-Age" "86400"
            (set "Access-Control-Allow-Headers" "Content-Type, Authorization"
               (set "Access-Control-Allow-Methods" "GET, POST, OPTIONS"
                  (set "Access-Control-Allow-Origin" "*" ∅))));
     body := NoBody |}.

Definition not_found : Response :=
  createApiResponse "Not Found" "invalid_request_error" 404 ∅.

Section Handle.

(** The catalogue, and the readings of the clock and the identifiers drawn
    while the request is served. The rate limiter takes the first reading
    of the clock; the controller takes the following ones. *)
Variable models : list AIModel.
Variable clock : nat -> Z.
Variable randomUUID : nat -> jsstring.

(** [chatController.createChatCompletion(request, rateLimitInfo)]: the
    call of [request.json()] is inside the [try] of the controller. *)
Definition createChatCompletion_of (env : Env) (request : Request) (info : RateLimitInfo)
    : Response :=
  match req_json request with
  | Throw e => caught e
  | Return body =>
      createChatCompletion (fun k => clock (S k)) randomUUID models (AI env) body (Some info)
  end.

(** [router.handle(request, env)]: the answer and the rate-limit namespace
    after the call. The gates and the controllers catch their own
    exceptions, and the [catch] of [handle] has nothing to catch. *)
Definition handle (env : Env) (request : Request) : Answer * KV :=
  if str_eqb (req_method request) (js "OPTIONS") then
    (Plain handlePreflight, RATE_LIMIT_KV env)
  else
    match verifyApiKey (req_authorization request) (API_KEYS_fails env) with
    | Some apiKeyError => (Plain (secured apiKeyError), RATE_LIMIT_KV env)
    | None =>
        match checkRateLimit (req_authorization request) (clock 0) (RATE_LIMIT_KV env) with
        | (Reply rateLimitResult, kv) => (Plain (secured rateLimitResult), kv)
        | (Info rateLimitInfo, kv) =>
            if str_eqb (req_pathname request) (js "/v1/chat/completions")
               && str_eqb (req_method request) (js "POST")
            then (Plain (createChatCompletion_of env request rateLimitInfo), kv)
            else if str_eqb (req_pathname request) (js "/v1/models")
                    && str_eqb (req_method request) (js "GET")
            then (listModels models, kv)
            else (Plain not_found, kv)
        end
    end.

(** [fetch(request, env, ctx)] of the worker. *)
Definition fetch (env : Env) (request : Request) : Answer * KV :=
  let '(response, kv) := handle env request in
  (secured_answer response, kv).

End Handle.

End Router.
Export Router.

(** * Properties *)

Local Open Scope Z_scope.

(** ** JSON.parse: the bound on the descent is never reached *)

Section Descent.

Local Close Scope Z_scope.

Lemma skip_ws_length (s : jsstring) : length (skip_ws s) <= length s.
Proof.
  induction s as [|c r IH]; cbn [skip_ws]; [lia|].
  destruct (is_ws c); cbn [length]; lia.
Qed.

Lemma skip_ws_cons (s r : jsstring) (c : N) : skip_ws s = c :: r -> length r < length s.
Proof. intros H. pose proof (skip_ws_length s) as Hl. rewrite H in Hl. cbn in Hl. lia. Qed.

Lemma digits_length (s : jsstring) : length (snd (digits s)) <= length s.
Proof.
  induction s as [|c r IH]; cbn [digits]; [cbn; lia|].
  destruct (is_digit c); [|cbn; lia].
  destruct (digits r) as [ds rest]. cbn [snd length] in *. lia.
Qed.

Lemma digits_consumed (s ds rest : jsstring) (d : N) :
  digits s = (d :: ds, rest) -> length rest < length s.
Proof.
  destruct s as [|c r]; cbn [digits]; [discriminate|].
  destruct (is_digit c); [|discriminate].
  pose proof (digits_length r) as Hl. destruct (digits r) as [ds' rest'].
  intros [= _ _ <-]. cbn [snd length] in *. lia.
Qed.

Lemma string_body_length (n : nat) :
  forall (s acc str rest : jsstring),
    length s <= n -> string_body s acc = Some (str, rest) -> length rest < length s.
Proof.
  induction n as [|n IH]; intros s acc str rest Hn; destruct s as [|c r]; cbn [string_body];
    try discriminate; [cbn in Hn; lia|].
  cbn [length] in Hn.
  destruct (N.eqb c 34); [intros [= _ <-]; cbn; lia|].
  destruct (N.eqb c 92).
  - destruct r as [|e r']; [discriminate|].
    destruct (N.eqb e 117).
    + destruct r' as [|h1 [|h2 [|h3 [|h4 r'']]]]; try discriminate.
      destruct (hex4 h1 h2 h3 h4); [|discriminate].
      intros H. apply IH in H; cbn [length] in *; lia.
    + destruct (escape e); [|discriminate].
      intros H. apply IH in H; cbn [length] in *; lia.
  - destruct (N.ltb c 32); [discriminate|].
    intros H. apply IH in H; cbn [length] in *; lia.
Qed.

Lemma sign_part_length (s : jsstring) : length (snd (sign_part s)) <= length s.
Proof.
  destruct s as [|c r]; cbn [sign_part]; [cbn; lia|].
  destruct (N.eqb c 45); cbn; lia.
Qed.

Lemma exponent_sign_length (s : jsstring) : length (snd (exponent_sign s)) <= length s.
Proof.
  destruct s as [|g r]; cbn [exponent_sign]; [cbn; lia|].
  destruct (N.eqb g 45); [cbn; lia|]. destruct (N.eqb g 43); cbn; lia.
Qed.

Lemma fraction_part_length (s fp rest : jsstring) :
  fraction_part s = Some (fp, rest) -> length rest <= length s.
Proof.
  destruct s as [|c r]; cbn [fraction_part]; [intros [= _ <-]; lia|].
  destruct (N.eqb c 46); [|intros [= _ <-]; lia].
  pose proof (digits_length r) as Hl. destruct (digits r) as [ds rest'].
  destruct ds; [discriminate|]. intros [= _ <-]. cbn [snd length] in *. lia.
Qed.

Lemma exponent_part_length (s rest : jsstring) (e : Z) :
  exponent_part s = Some (e, rest) -> length rest <= length s.
Proof.
  destruct s as [|c r]; cbn [exponent_part]; [intros [= _ <-]; lia|].
  destruct (N.eqb c 101 || N.eqb c 69); [|intros [= _ <-]; lia].
  pose proof (exponent_sign_length r) as Hsign.
  destruct (exponent_sign r) as [eneg r1]. cbn [snd] in Hsign.
  pose proof (digits_length r1) as Hl.
  destruct (digits r1) as [ep rest']. destruct ep; [discriminate|].
  intros [= _ <-]. cbn [snd length] in *. lia.
Qed.

Lemma number_literal_length (s rest : jsstring) (n : number) :
  number_literal s = Some (n, rest) -> length rest < length s.
Proof.
  unfold number_literal. pose proof (sign_part_length s) as Hs.
  destruct (sign_part s) as [neg s1]. cbn [snd] in Hs.
  destruct (digits s1) as [ip s2] eqn:Hd. destruct ip as [|d ds]; [discriminate|].
  apply digits_consumed in Hd.
  destruct (N.eqb d 48 && _); [discriminate|].
  destruct (fraction_part s2) as [[fp s3]|] eqn:Hf; [|discriminate].
  apply fraction_part_length in Hf.
  destruct (exponent_part s3) as [[e s4]|] eqn:He; [|discriminate].
  apply exponent_part_length in He. intros [= _ <-]. lia.
Qed.

Lemma startsWith_length (s p : jsstring) : startsWith s p = true -> length p <= length s.
Proof.
  revert s. induction p as [|c p IH]; intros s; cbn [startsWith length]; [lia|].
  destruct s as [|d s]; [discriminate|]. intros H. apply andb_true_iff in H.
  destruct H as [_ H]. apply IH in H. cbn. lia.
Qed.

Lemma keyword_length (s rest : jsstring) (v : value) :
  keyword s = Some (v, rest) -> length rest < length s.
Proof.
  unfold keyword.
  destruct (startsWith s (js "null")) eqn:H1;
    [|destruct (startsWith s (js "true")) eqn:H2;
      [|destruct (startsWith s (js "false")) eqn:H3; [|discriminate]]];
    intros [= _ <-];
    match goal with H : startsWith _ _ = true |- _ => apply startsWith_length in H; cbn in H end;
    rewrite length_drop; lia.
Qed.

Lemma parse_length (fuel : nat) :
  (forall s v rest, parse_value fuel s = Ok v rest -> length rest < length s)
  /\ (forall s acc v rest, parse_elements fuel s acc = Ok v rest -> length rest < length s)
  /\ (forall s acc v rest, parse_members fuel s acc = Ok v rest -> length rest < length s).
Proof.
  induction fuel as [|f (IHv & IHe & IHm)]; [repeat split; discriminate|].
  split; [|split].
  - intros s v rest. cbn [parse_value].
    destruct (skip_ws s) as [|c r] eqn:Hs; [discriminate|]. apply skip_ws_cons in Hs.
    destruct (N.eqb c 34).
    { destruct (string_body r []) as [[str rest']|] eqn:Hb; [|discriminate].
      apply (string_body_length _ _ _ _ _ (le_n _)) in Hb. intros [= _ <-]. lia. }
    destruct (N.eqb c 91).
    { destruct (skip_ws r) as [|d rest'] eqn:Hr; [discriminate|]. apply skip_ws_cons in Hr.
      destruct (N.eqb d 93); [intros [= _ <-]; lia|].
      intros H. apply IHe in H. lia. }
    destruct (N.eqb c 123).
    { destruct (skip_ws r) as [|d rest'] eqn:Hr; [discriminate|]. apply skip_ws_cons in Hr.
      destruct (N.eqb d 125); [intros [= _ <-]; lia|].
      intros H. apply IHm in H. lia. }
    destruct (N.eqb c 45 || is_digit c).
    { destruct (number_literal (c :: r)) as [[n rest']|] eqn:Hn; [|discriminate].
      apply number_literal_length in Hn. cbn [length] in Hn. intros [= _ <-]. lia. }
    destruct (keyword (c :: r)) as [[w rest']|] eqn:Hk; [|discriminate].
    apply keyword_length in Hk. cbn [length] in Hk. intros [= _ <-]. lia.
  - intros s acc v rest. cbn [parse_elements].
    destruct (parse_value f s) as [w rest0| |] eqn:Hv; try discriminate.
    apply IHv in Hv.
    destruct (skip_ws rest0) as [|d rest'] eqn:Hr; [discriminate|]. apply skip_ws_cons in Hr.
    destruct (N.eqb d 44); [intros H; apply IHe in H; lia|].
    destruct (N.eqb d 93); [|discriminate]. intros [= _ <-]. lia.
  - intros s acc v rest. cbn [parse_members].
    destruct (skip_ws s) as [|q r] eqn:Hs; [discriminate|]. apply skip_ws_cons in Hs.
    destruct (N.eqb q 34); [|discriminate].
    destruct (string_body r []) as [[k rest0]|] eqn:Hb; [|discriminate].
    apply (string_body_length _ _ _ _ _ (le_n _)) in Hb.
    destruct (skip_ws rest0) as [|d rest'] eqn:Hr; [discriminate|]. apply skip_ws_cons in Hr.
    destruct (N.eqb d 58); [|discriminate].
    destruct (parse_value f rest') as [w rest''| |] eqn:Hv; try discriminate.
    apply IHv in Hv.
    destruct (skip_ws rest'') as [|g r3] eqn:Hr3; [discriminate|]. apply skip_ws_cons in Hr3.
    destruct (N.eqb g 44); [intros H; apply IHm in H; lia|].
    destruct (N.eqb g 125); [|discriminate]. intros [= _ <-]. lia.
Qed.

Lemma parse_fuel (fuel : nat) :
  (forall s, 2 * length s < fuel -> parse_value fuel s <> OutOfFuel)
  /\ (forall s acc, 2 * length s + 1 < fuel -> parse_elements fuel s acc <> OutOfFuel)
  /\ (forall s acc, 2 * length s + 1 < fuel -> parse_members fuel s acc <> OutOfFuel).
Proof.
  induction fuel as [|f (IHv & IHe & IHm)]; [repeat split; intros; lia|].
  destruct (parse_length f) as (Lv & _ & _).
  split; [|split].
  - intros s Hf. cbn [parse_value].
    destruct (skip_ws s) as [|c r] eqn:Hs; [discriminate|]. apply skip_ws_cons in Hs.
    destruct (N.eqb c 34); [destruct (string_body r []) as [[? ?]|]; discriminate|].
    destruct (N.eqb c 91).
    { destruct (skip_ws r) as [|d rest']; [discriminate|].
      destruct (N.eqb d 93); [discriminate|]. apply IHe. lia. }
    destruct (N.eqb c 123).
    { destruct (skip_ws r) as [|d rest']; [discriminate|].
      destruct (N.eqb d 125); [discriminate|]. apply IHm. lia. }
    destruct (N.eqb c 45 || is_digit c);
      [destruct (number_literal (c :: r)) as [[? ?]|]; discriminate|].
    destruct (keyword (c :: r)) as [[? ?]|]; discriminate.
  - intros s acc Hf. cbn [parse_elements].
    destruct (parse_value f s) as [w rest0| |] eqn:Hv; [|discriminate|].
    + apply Lv in Hv.
      destruct (skip_ws rest0) as [|d rest'] eqn:Hr; [discriminate|]. apply skip_ws_cons in Hr.
      destruct (N.eqb d 44); [apply IHe; lia|].
      destruct (N.eqb d 93); discriminate.
    + exfalso. revert Hv. apply IHv. lia.
  - intros s acc Hf. cbn [parse_members].
    destruct (skip_ws s) as [|q r] eqn:Hs; [discriminate|]. apply skip_ws_cons in Hs.
    destruct (N.eqb q 34); [|discriminate].
    destruct (string_body r []) as [[k rest0]|] eqn:Hb; [|discriminate].
    apply (string_body_length _ _ _ _ _ (le_n _)) in Hb.
    destruct (skip_ws rest0) as [|d rest'] eqn:Hr; [discriminate|]. apply skip_ws_cons in Hr.
    destruct (N.eqb d 58); [|discriminate].
    destruct (parse_value f rest') as [w rest''| |] eqn:Hv; [|discriminate|].
    + apply Lv in Hv.
      destruct (skip_ws rest'') as [|g r3] eqn:Hr3; [discriminate|].
      apply skip_ws_cons in Hr3.
      destruct (N.eqb g 44); [apply IHm; lia|].
      destruct (N.eqb g 125); discriminate.
    + exfalso. revert Hv. apply IHv. lia.
Qed.

(** [JSON.parse] of the embedding gives [None] only for a text that the
    grammar rejects: the descent never stops for want of fuel. *)
Lemma parse_value_fuel (text : jsstring) : parse_value (fuel_for text) text <> OutOfFuel.
Proof. apply parse_fuel. unfold fuel_for. lia. Qed.

End Descent.

(** ** Token accounting *)

Section Tokens.

Definition Zsum (l : list Z) : Z := foldr Z.add 0 l.

(** The number of code units of the prompt. *)
Definition prompt_length (b : ChatCompletionRequest) : Z :=
  Zsum (map (fun m => Z.of_nat (length (content m))) (messages b)).

Lemma ceil_div_4 (n k : Z) : ceil_div n 4 = k <-> 4 * (k - 1) < n <= 4 * k.
Proof.
  unfold ceil_div.
  pose proof (Z.div_mod (- n) 4 ltac:(lia)) as Hd.
  pose proof (Z.mod_pos_bound (- n) 4 ltac:(lia)) as Hm.
  split; intros H; lia.
Qed.

Lemma ceil_div_4_multiple (n : Z) : (4 | n) -> 4 * ceil_div n 4 = n.
Proof.
  intros [q ->]. unfold ceil_div.
  replace (- (q * 4)) with ((- q) * 4) by lia.
  rewrite Z.div_mul by lia. lia.
Qed.

Lemma fold_left_tokens (ms : list ChatMessage) (a : Z) :
  fold_left (fun acc msg => acc + calculateTokens (content msg)) ms a
  = a + Zsum (map (fun m => calculateTokens (content m)) ms).
Proof.
  revert a. induction ms as [|m ms IH]; intros a; simpl.
  - lia.
  - rewrite IH. lia.
Qed.

Lemma tokens_of_multiples (ms : list ChatMessage) :
  Forall (fun m => (4 | Z.of_nat (length (content m)))) ms ->
  4 * Zsum (map (fun m => calculateTokens (content m)) ms)
  = Zsum (map (fun m => Z.of_nat (length (content m))) ms).
Proof.
  induction 1 as [|m ms Hm _ IH]; simpl; [reflexivity|].
  unfold calculateTokens at 1. pose proof (ceil_div_4_multiple _ Hm). lia.
Qed.

End Tokens.

(** A request of two messages of 1 and 39 code units, and a completion of
    80 code units. *)
Definition uneven_prompt : ChatCompletionRequest :=
  {| model := js "m";
     messages := [ {| role := js "system"; content := js "a" |};
                   {| role := js "user"; content := repeat 98%N 39 |} ];
     temperature := None; max_tokens := None; stream := None |}.

(** C6, as stated, fails: the prompt totals 40 code units and the
    completion has 80, and the prompt is counted as 11 tokens, not 10, the
    total as 31, because each message is rounded up on its own. *)
Lemma uneven_prompt_tokens :
  prompt_length uneven_prompt = 40
  /\ Z.of_nat (length (repeat 99%N 80)) = 80
  /\ usage_of uneven_prompt (repeat 99%N 80)
     = {| prompt_tokens := 11; completion_tokens := 20; total_tokens := 31 |}
  /\ prompt_tokens (usage_of uneven_prompt (repeat 99%N 80)) <> 10.
Proof. vm_compute. repeat split; congruence. Qed.

(** C6, amended. A non-streaming completion reports
    [tokens text = ceil (length text / 4)] summed over the messages of the
    request as [prompt_tokens], [tokens] of the output text as
    [completion_tokens], and their sum as [total_tokens]. When the length of
    every message is a multiple of 4 (a single message of 40 code units, for
    one), a prompt of 40 code units and a completion of 80 give 10, 20
    and 30. *)
Theorem completion_usage
    (clock : nat -> Z) (randomUUID : nat -> jsstring) (models : list AIModel)
    (run : jsstring -> RunOptions -> outcome AiReply)
    (b : ChatCompletionRequest) (info : option RateLimitInfo)
    (text finishReason : jsstring) :
  validateRequestBody (body_value b) = Return None ->
  default false (stream b) = false ->
  generateChatCompletion models run
    {| model := model b; messages := messages b; temperature := temperature b;
       max_tokens := max_tokens b; stream := Some false |}
    = Return (Complete text finishReason) ->
  exists c : ChatCompletionResponse,
    body (createChatCompletion clock randomUUID models run b info) = CompletionBody c
    /\ cc_content c = text
    /\ (forall (t : jsstring) (k : Z),
          calculateTokens t = k <-> 4 * (k - 1) < Z.of_nat (length t) <= 4 * k)
    /\ prompt_tokens (cc_usage c)
       = Zsum (map (fun m => calculateTokens (content m)) (messages b))
    /\ completion_tokens (cc_usage c) = calculateTokens text
    /\ total_tokens (cc_usage c)
       = prompt_tokens (cc_usage c) + completion_tokens (cc_usage c)
    /\ (Forall (fun m => (4 | Z.of_nat (length (content m)))) (messages b) ->
        prompt_length b = 40 -> Z.of_nat (length text) = 80 ->
        prompt_tokens (cc_usage c) = 10
        /\ completion_tokens (cc_usage c) = 20
        /\ total_tokens (cc_usage c) = 30).
Proof.
  intros Hvalid Hstream Hgen.
  unfold createChatCompletion. rewrite Hvalid, Hstream, Hgen. simpl.
  eexists. split; [reflexivity|]. simpl.
  assert (Hp : fold_left (fun acc msg => acc + calculateTokens (content msg)) (messages b) 0
               = Zsum (map (fun m => calculateTokens (content m)) (messages b))).
  { rewrite fold_left_tokens. lia. }
  split; [reflexivity|].
  split; [intros t k; apply ceil_div_4|].
  split; [exact Hp|].
  split; [reflexivity|].
  split; [reflexivity|].
  intros Hall Hlen Htext. rewrite Hp.
  pose proof (tokens_of_multiples _ Hall) as Hs. unfold prompt_length in Hlen.
  assert (calculateTokens text = 20) by (apply ceil_div_4; lia).
  lia.
Qed.

(** A catalogue of one chat model and a binding that answers with 80 code
    units. *)
Definition one_model : list AIModel :=
  [ {| id := js "m";
       capabilities := Some {| embeddings := None; chat := Some true;
                               completions := None; translation := None |} |} ].

Definition answers_80 (_ : jsstring) (_ : RunOptions) : outcome AiReply :=
  Return (Text (repeat 99%N 80)).

Definition prompt_40 : ChatCompletionRequest :=
  {| model := js "m";
     messages := [ {| role := js "user"; content := repeat 98%N 40 |} ];
     temperature := None; max_tokens := None; stream := None |}.

Lemma completion_usage_witness :
  exists c : ChatCompletionResponse,
    body (createChatCompletion (fun _ => 0) (fun _ => []) one_model answers_80 prompt_40 None)
    = CompletionBody c
    /\ cc_content c = repeat 99%N 80
    /\ (forall (t : jsstring) (k : Z),
          calculateTokens t = k <-> 4 * (k - 1) < Z.of_nat (length t) <= 4 * k)
    /\ prompt_tokens (cc_usage c)
       = Zsum (map (fun m => calculateTokens (content m)) (messages prompt_40))
    /\ completion_tokens (cc_usage c) = calculateTokens (repeat 99%N 80)
    /\ total_tokens (cc_usage c)
       = prompt_tokens (cc_usage c) + completion_tokens (cc_usage c)
    /\ (Forall (fun m => (4 | Z.of_nat (length (content m)))) (messages prompt_40) ->
        prompt_length prompt_40 = 40 -> Z.of_nat (length (repeat 99%N 80)) = 80 ->
        prompt_tokens (cc_usage c) = 10
        /\ completion_tokens (cc_usage c) = 20
        /\ total_tokens (cc_usage c) = 30).
Proof.
  apply (completion_usage (fun _ => 0) (fun _ => []) one_model answers_80 prompt_40 None
           (repeat 99%N 80) (js "stop")); vm_compute; reflexivity.
Defined.

(** ** The two readings of the Authorization header *)

Section Bearer.

Lemma startsWith_app (p s : jsstring) : startsWith (p ++ s) p = true.
Proof. induction p as [|c p IH]; simpl; [reflexivity|]. rewrite N.eqb_refl. exact IH. Qed.

Lemma startsWith_ci_app (p s : jsstring) : starts_with_ci (p ++ s) p = true.
Proof. induction p as [|c p IH]; simpl; [reflexivity|]. rewrite N.eqb_refl. exact IH. Qed.

Lemma remove_first_unfold (p s : jsstring) :
  remove_first p s
  = if startsWith s p then drop (length p) s
    else match s with [] => [] | c :: r => c :: remove_first p r end.
Proof. destruct s; reflexivity. Qed.

Lemma remove_first_app (p s : jsstring) : remove_first p (p ++ s) = s.
Proof. rewrite remove_first_unfold, startsWith_app, drop_app_length. reflexivity. Qed.

(** On a header [Bearer <token>] written with that capitalisation and one
    space, the token having no line terminator and not starting with white
    space, the two gates read the same credential. *)
Lemma bearer_canonical (c : N) (token : jsstring) :
  is_space c = false ->
  forallb (fun d => negb (is_line_terminator d)) (c :: token) = true ->
  match_bearer (js "Bearer " ++ c :: token) = Some (c :: token)
  /\ apiKey_of (Some (js "Bearer " ++ c :: token)) = Some (c :: token).
Proof.
  intros Hc Hline. split.
  - unfold match_bearer.
    replace (js "Bearer " ++ c :: token) with (js "Bearer" ++ 32%N :: c :: token)
      by reflexivity.
    rewrite startsWith_ci_app.
    replace (drop 6 (js "Bearer" ++ 32%N :: c :: token)) with (32%N :: c :: token)
      by reflexivity.
    cbn [spaces]. rewrite Hc. replace (is_space 32) with true by reflexivity.
    cbn [spaces_then_rest drop]. unfold rest_of_line. rewrite Hline. reflexivity.
  - unfold apiKey_of. cbn [fmap option_fmap option_map].
    rewrite remove_first_app. reflexivity.
Qed.

End Bearer.

(** A namespace with nothing stored. *)
Definition empty_kv : KV := {| entries := ∅; puts := []; reachable := true |}.

(** C3: the authenticator accepts the header [bearer abc] and captures the
    token [abc]; the rate limiter, reading the same header, removes only the
    exact text [Bearer ] and so takes the whole header as the credential:
    the request is counted under [ratelimit:bearer abc], while the same
    token sent as [Bearer abc] is counted under [ratelimit:abc]. The same
    happens with two spaces after [Bearer]. *)
Theorem bearer_lowercase_keys :
  verifyApiKey (Some (js "bearer abc")) false = None
  /\ match_bearer (js "bearer abc") = Some (js "abc")
  /\ apiKey_of (Some (js "bearer abc")) = Some (js "bearer abc")
  /\ puts (snd (checkRateLimit (Some (js "bearer abc")) 0 empty_kv))
     = [(js "ratelimit:bearer abc", {| count := 1; timestamp := 0 |}, 3600)]
  /\ puts (snd (checkRateLimit (Some (js "Bearer abc")) 0 empty_kv))
     = [(js "ratelimit:abc", {| count := 1; timestamp := 0 |}, 3600)]
  /\ match_bearer (js "Bearer  abc") = Some (js "abc")
  /\ apiKey_of (Some (js "Bearer  abc")) = Some (js " abc").
Proof. vm_compute. repeat split; reflexivity. Qed.

(** ** The rate limiter *)

(** The N-th request of a window opened at [w] (in seconds) is answered
    with this. *)
Definition nth_result (w N : Z) : Result :=
  if N <=? RATE_LIMIT
  then Info {| remaining := RATE_LIMIT - N; reset := w + WINDOW_SIZE; total := RATE_LIMIT |}
  else Reply (exceeded (w + WINDOW_SIZE)).

(** The write of the N-th request of the window, when it is allowed. *)
Definition nth_write (key : jsstring) (w N : Z) : option (jsstring * RateLimitData * Z) :=
  if N <=? RATE_LIMIT
  then Some (key, {| count := N; timestamp := w |}, WINDOW_SIZE)
  else None.

(** The clock reading [c], in milliseconds, falls in the window opened at
    [w]. *)
Definition in_window (w c : Z) : Prop := w <= c / 1000 < w + WINDOW_SIZE.

(** At time [w] the record under [key] is absent, has expired, or is as old
    as a window. *)
Definition opens_window (kv : KV) (key : jsstring) (w : Z) : Prop :=
  match entries kv !! key with
  | Some (d, expires) => expires <= w \/ WINDOW_SIZE <= w - timestamp d
  | None => True
  end.

Section Window.

Variable authorization : option jsstring.
Variable apiKey : jsstring.
Hypothesis Hkey : apiKey_of authorization = Some apiKey.
Hypothesis Hne : apiKey <> [].
Variable w : Z.

Local Abbreviation key := (js "ratelimit:" ++ apiKey).

Lemma check_in_window (kv : KV) (c k expires : Z) :
  reachable kv = true ->
  entries kv !! key = Some ({| count := k; timestamp := w |}, expires) ->
  w + WINDOW_SIZE <= expires ->
  in_window w c ->
  checkRateLimit authorization c kv
  = if RATE_LIMIT <=? k then (Reply (exceeded (w + WINDOW_SIZE)), kv)
    else (Info {| remaining := RATE_LIMIT - (k + 1); reset := w + WINDOW_SIZE;
                  total := RATE_LIMIT |},
          {| entries := <[key := ({| count := k + 1; timestamp := w |},
                                  c / 1000 + WINDOW_SIZE)]> (entries kv);
             puts := (key, {| count := k + 1; timestamp := w |}, WINDOW_SIZE) :: puts kv;
             reachable := true |}).
Proof using Hkey Hne.
  intros Hr Hl Hex [Hlo Hhi]. unfold checkRateLimit. rewrite Hkey.
  destruct apiKey as [|a0 rest]; [congruence|].
  unfold kv_get, kv_put. rewrite Hr, Hl.
  replace (c / 1000 <? expires) with true by (symmetry; apply Z.ltb_lt; lia).
  cbn [timestamp count].
  replace (WINDOW_SIZE <=? c / 1000 - w) with false by (symmetry; apply Z.leb_gt; lia).
  cbn [timestamp count]. destruct (RATE_LIMIT <=? k); reflexivity.
Qed.

Lemma check_opens_window (kv : KV) (c : Z) :
  reachable kv = true ->
  opens_window kv key (c / 1000) ->
  checkRateLimit authorization c kv
  = (Info {| remaining := RATE_LIMIT - 1; reset := c / 1000 + WINDOW_SIZE;
             total := RATE_LIMIT |},
     {| entries := <[key := ({| count := 1; timestamp := c / 1000 |},
                             c / 1000 + WINDOW_SIZE)]> (entries kv);
        puts := (key, {| count := 1; timestamp := c / 1000 |}, WINDOW_SIZE) :: puts kv;
        reachable := true |}).
Proof using Hkey Hne.
  intros Hr Ho. unfold checkRateLimit. rewrite Hkey.
  destruct apiKey as [|a0 rest]; [congruence|].
  unfold kv_get, kv_put. rewrite Hr.
  unfold opens_window in Ho.
  destruct (entries kv !! (js "ratelimit:" ++ a0 :: rest)) as [[d ex]|].
  - destruct (c / 1000 <? ex) eqn:Hlt.
    + apply Z.ltb_lt in Hlt.
      replace (WINDOW_SIZE <=? c / 1000 - timestamp d) with true
        by (symmetry; apply Z.leb_le; lia).
      reflexivity.
    + reflexivity.
  - reflexivity.
Qed.

Lemma serve_in_window (cs : list Z) :
  forall (kv : KV) (n expires : Z),
    reachable kv = true ->
    entries kv !! key = Some ({| count := Z.min n RATE_LIMIT; timestamp := w |}, expires) ->
    w + WINDOW_SIZE <= expires ->
    0 <= n ->
    Forall (in_window w) cs ->
    exists kv' : KV,
      serve authorization cs kv
      = (nth_result w <$> seqZ (n + 1) (Z.of_nat (length cs)), kv')
      /\ puts kv' = reverse (omap (nth_write key w) (seqZ (n + 1) (Z.of_nat (length cs))))
                    ++ puts kv.
Proof using Hkey Hne.
  induction cs as [|c cs IH]; intros kv n expires Hr Hl Hex Hn Hall.
  - exists kv. split; reflexivity.
  - inversion Hall as [|? ? Hc Hcs]; subst.
    cbn [serve length]. rewrite (check_in_window kv c _ expires Hr Hl Hex Hc).
    rewrite Nat2Z.inj_succ, seqZ_cons by lia.
    replace (Z.pred (Z.succ (Z.of_nat (length cs)))) with (Z.of_nat (length cs)) by lia.
    replace (Z.succ (n + 1)) with ((n + 1) + 1) by lia.
    rewrite fmap_cons. cbn [omap list_omap].
    unfold nth_result at 1, nth_write at 1. unfold RATE_LIMIT in *.
    destruct (100 <=? Z.min n 100) eqn:Hk.
    + apply Z.leb_le in Hk.
      replace (n + 1 <=? 100) with false by (symmetry; apply Z.leb_gt; lia).
      destruct (IH kv (n + 1) expires) as (kv' & Hs & Hp); try assumption; try lia.
      { rewrite Hl. replace (Z.min (n + 1) 100) with (Z.min n 100) by lia. reflexivity. }
      rewrite Hs. exists kv'. split; [reflexivity|]. exact Hp.
    + apply Z.leb_gt in Hk.
      replace (n + 1 <=? 100) with true by (symmetry; apply Z.leb_le; lia).
      match goal with |- context [serve authorization cs ?k1] => set (kv1 := k1) end.
      destruct (IH kv1 (n + 1) (c / 1000 + WINDOW_SIZE)) as (kv' & Hs & Hp);
        try assumption; try lia.
      { reflexivity. }
      { subst kv1. cbn [entries]. rewrite lookup_insert_eq.
        replace (Z.min (n + 1) 100) with (Z.min n 100 + 1) by lia. reflexivity. }
      { destruct Hc. lia. }
      rewrite Hs. exists kv'. split.
      * replace (100 - (Z.min n 100 + 1)) with (100 - (n + 1)) by lia. reflexivity.
      * rewrite Hp. subst kv1. cbn [puts]. rewrite reverse_cons, <- app_assoc.
        cbn [app]. replace (Z.min n 100 + 1) with (n + 1) by lia. reflexivity.
Qed.

End Window.

(** C2: the requests of one credential inside one window. The first request
    finds the record absent, expired or as old as a window, and opens the
    window at its own time [w]; the other requests fall in [w, w + 3600).
    The N-th request, N <= 100, is allowed with [remaining = 100 - N],
    [reset = w + 3600] and [total = 100], and writes the record
    [{count: N, timestamp: w}] with an expiry of 3600 seconds; every later
    request of the window is answered 429 [rate_limit_error] with
    [X-RateLimit-Remaining: 0] and [X-RateLimit-Reset: w + 3600], and writes
    nothing. *)
Theorem rate_limit_window
    (authorization : option jsstring) (apiKey : jsstring) (kv : KV) (c0 : Z) (cs : list Z) :
  apiKey_of authorization = Some apiKey ->
  apiKey <> [] ->
  reachable kv = true ->
  opens_window kv (js "ratelimit:" ++ apiKey) (c0 / 1000) ->
  Forall (in_window (c0 / 1000)) cs ->
  exists kv' : KV,
    serve authorization (c0 :: cs) kv
    = (nth_result (c0 / 1000) <$> seqZ 1 (Z.of_nat (S (length cs))), kv')
    /\ puts kv'
       = reverse (omap (nth_write (js "ratelimit:" ++ apiKey) (c0 / 1000))
                    (seqZ 1 (Z.of_nat (S (length cs)))))
         ++ puts kv
    /\ (forall N : Z, 1 <= N <= 100 ->
          nth_result (c0 / 1000) N
          = Info {| remaining := 100 - N; reset := c0 / 1000 + 3600; total := 100 |}
          /\ nth_write (js "ratelimit:" ++ apiKey) (c0 / 1000) N
             = Some (js "ratelimit:" ++ apiKey, {| count := N; timestamp := c0 / 1000 |}, 3600))
    /\ (forall N : Z, 100 < N ->
          nth_write (js "ratelimit:" ++ apiKey) (c0 / 1000) N = None
          /\ exists r : Response,
               nth_result (c0 / 1000) N = Reply r
               /\ status r = 429
               /\ body r = ErrorBody {| err_message := js "Rate limit exceeded";
                                        err_type := js "rate_limit_error";
                                        err_param := None; err_code := None |}
               /\ headers r !! js "X-RateLimit-Limit" = Some (js "100")
               /\ headers r !! js "X-RateLimit-Remaining" = Some (js "0")
               /\ headers r !! js "X-RateLimit-Reset" = Some (toString (c0 / 1000 + 3600))).
Proof.
  intros Hkey Hne Hr Ho Hall.
  cbn [serve]. rewrite (check_opens_window authorization apiKey Hkey Hne kv c0 Hr Ho).
  match goal with |- context [serve authorization cs ?k1] => set (kv1 := k1) end.
  destruct (serve_in_window authorization apiKey Hkey Hne (c0 / 1000) cs kv1 1
              (c0 / 1000 + WINDOW_SIZE)) as (kv' & Hs & Hp); try assumption; try lia.
  { reflexivity. }
  { subst kv1. cbn [entries]. rewrite lookup_insert_eq. reflexivity. }
  rewrite Hs. exists kv'.
  rewrite Nat2Z.inj_succ, (seqZ_cons 1) by lia.
  replace (Z.pred (Z.succ (Z.of_nat (length cs)))) with (Z.of_nat (length cs)) by lia.
  split; [reflexivity|]. split.
  { rewrite Hp. subst kv1. cbn [puts omap list_omap]. 
    change (nth_write (js "ratelimit:" ++ apiKey) (c0 / 1000) 1)
      with (Some (js "ratelimit:" ++ apiKey, {| count := 1; timestamp := c0 / 1000 |},
                  WINDOW_SIZE)).
    cbn iota. rewrite reverse_cons, <- app_assoc. reflexivity. }
  split.
  { intros N HN. unfold nth_result, nth_write, RATE_LIMIT.
    replace (N <=? 100) with true by (symmetry; apply Z.leb_le; lia).
    split; reflexivity. }
  intros N HN. unfold nth_result, nth_write, RATE_LIMIT.
  replace (N <=? 100) with false by (symmetry; apply Z.leb_gt; lia).
  split; [reflexivity|]. eexists. split; [reflexivity|].
  repeat split; reflexivity.
Qed.

(** 101 requests with the header [Bearer k], one second apart, on an empty
    namespace. *)
Definition later_requests : list Z := (fun i => i * 1000) <$> seqZ 1 100.

Lemma rate_limit_window_witness :
  exists kv' : KV,
    serve (Some (js "Bearer k")) (0 :: later_requests) empty_kv
    = (nth_result (0 / 1000) <$> seqZ 1 (Z.of_nat (S (length later_requests))),
       kv')
    /\ puts kv'
       = reverse (omap (nth_write (js "ratelimit:" ++ js "k") (0 / 1000))
                    (seqZ 1 (Z.of_nat (S (length later_requests)))))
         ++ puts empty_kv
    /\ (forall N : Z, 1 <= N <= 100 ->
          nth_result (0 / 1000) N
          = Info {| remaining := 100 - N; reset := 0 / 1000 + 3600; total := 100 |}
          /\ nth_write (js "ratelimit:" ++ js "k") (0 / 1000) N
             = Some (js "ratelimit:" ++ js "k", {| count := N; timestamp := 0 / 1000 |}, 3600))
    /\ (forall N : Z, 100 < N ->
          nth_write (js "ratelimit:" ++ js "k") (0 / 1000) N = None
          /\ exists r : Response,
               nth_result (0 / 1000) N = Reply r
               /\ status r = 429
               /\ body r = ErrorBody {| err_message := js "Rate limit exceeded";
                                        err_type := js "rate_limit_error";
                                        err_param := None; err_code := None |}
               /\ headers r !! js "X-RateLimit-Limit" = Some (js "100")
               /\ headers r !! js "X-RateLimit-Remaining" = Some (js "0")
               /\ headers r !! js "X-RateLimit-Reset" = Some (toString (0 / 1000 + 3600))).
Proof.
  apply (rate_limit_window (Some (js "Bearer k")) (js "k") empty_kv 0
           later_requests).
  - reflexivity.
  - discriminate.
  - reflexivity.
  - vm_compute. exact I.
  - unfold later_requests. apply Forall_fmap, Forall_forall. intros i Hi.
    apply elem_of_seqZ in Hi. unfold in_window, WINDOW_SIZE, compose.
    rewrite Z.div_mul by lia. change (0 / 1000) with 0. lia.
Defined.

(** C10: a call that answers with an error response (the credential is
    missing, the limit is reached, or the namespace cannot be reached)
    leaves the namespace as it was, its list of writes included; a call
    that allows the request performs exactly one write. A request without
    the header, or whose header is [Bearer ] alone, is answered 429. *)
Theorem denied_without_write (authorization : option jsstring) (c : Z) (kv : KV) :
  match checkRateLimit authorization c kv with
  | (Reply r, kv') => kv' = kv
  | (Info i, kv') =>
      exists (key : jsstring) (d : RateLimitData),
        puts kv' = (key, d, WINDOW_SIZE) :: puts kv
        /\ entries kv' = <[key := (d, c / 1000 + WINDOW_SIZE)]> (entries kv)
  end
  /\ checkRateLimit None c kv = (Reply missing_key, kv)
  /\ checkRateLimit (Some (js "Bearer ")) c kv = (Reply missing_key, kv)
  /\ status missing_key = 429.
Proof.
  split; [|repeat split].
  unfold checkRateLimit.
  destruct (apiKey_of authorization) as [[|a k]|]; try reflexivity.
  unfold kv_get, kv_put. destruct (reachable kv); [|reflexivity].
  match goal with |- context [RATE_LIMIT <=? ?x] => destruct (RATE_LIMIT <=? x) end.
  - reflexivity.
  - eexists _, _. split; reflexivity.
Qed.

(** ** The request validator *)

(** Request bodies, as JSON text. *)
Definition numeric_content : jsstring :=
  jsq "{'model':'m','messages':[{'role':'user','content':5}]}".

Definition null_message : jsstring :=
  jsq "{'model':'m','messages':[null]}".

Definition bogus_role : jsstring :=
  jsq "{'model':'m','messages':[{'role':'bogus','content':'x'}]}".

Definition temperature_3 : jsstring :=
  jsq "{'model':'m','messages':[{'role':'user','content':'x'}],'temperature':3}".

Definition max_tokens_0 : jsstring :=
  jsq "{'model':'m','messages':[{'role':'user','content':'x'}],'max_tokens':0}".

(** The [param] of the error response of a validation, when there is one. *)
Definition rejected_param (r : outcome (option Response)) : option jsstring :=
  match r with
  | Return (Some {| status := 400; body := ErrorBody e |}) =>
      if str_eqb (err_type e) (js "invalid_request_error") then err_param e else None
  | _ => None
  end.

Definition validate_text (text : jsstring) : option (outcome (option Response)) :=
  validateRequestBody <$> Json.parse text.

(** The checks of the validator on a request whose fields have their
    declared types, in the order they are made; each gives the message and
    the parameter of its error when it fails. *)
Fixpoint first_invalid (index : nat) (ms : list ChatMessage) : option (jsstring * string) :=
  match ms with
  | [] => None
  | m :: rest =>
      if negb (valid_role (JStr (role m))) then Some (invalid_role_message index, "messages")
      else if bool_decide (content m = []) then Some (empty_content_message index, "messages")
      else first_invalid (S index) rest
  end%string.

Definition typed_checks (b : ChatCompletionRequest) : list (option (jsstring * string)) :=
  [ if bool_decide (model b = []) then Some (js "model is required", "model") else None;
    if bool_decide (messages b = [])
    then Some (js "messages array is required and cannot be empty", "messages") else None;
    first_invalid 0 (messages b);
    match temperature b with
    | Some t =>
        if negb (num_ltb t (of_Z 0)) && negb (num_ltb (of_Z 2) t) then None
        else Some (js "temperature must be a number between 0 and 2", "temperature")
    | None => None
    end;
    match max_tokens b with
    | Some k =>
        if negb (num_ltb k (of_Z 1)) then None
        else Some (js "max_tokens must be a positive number", "max_tokens")
    | None => None
    end ]%string.

(** The first check that fails, if any. *)
Definition first_failure {A : Type} (checks : list (option A)) : option A :=
  foldr (fun c later => match c with Some e => Some e | None => later end) None checks.

Section TypedValidation.

Lemma get_model (b : ChatCompletionRequest) :
  get (body_value b) (js "model") = Val (JStr (model b)).
Proof.
  destruct b as [m ms [t|] [k|] [st|]]; vm_compute; reflexivity.
Qed.

Lemma get_messages (b : ChatCompletionRequest) :
  get (body_value b) (js "messages") = Val (JArr (map message_value (messages b))).
Proof.
  destruct b as [m ms [t|] [k|] [st|]]; unfold body_value; cbn [model messages];
    generalize (map message_value ms); intros l; vm_compute; reflexivity.
Qed.

Lemma get_temperature (b : ChatCompletionRequest) :
  get (body_value b) (js "temperature")
  = match temperature b with Some t => Val (JNum t) | None => Undefined end.
Proof.
  destruct b as [m ms [t|] [k|] [st|]]; vm_compute; reflexivity.
Qed.

Lemma get_max_tokens (b : ChatCompletionRequest) :
  get (body_value b) (js "max_tokens")
  = match max_tokens b with Some t => Val (JNum t) | None => Undefined end.
Proof.
  destruct b as [m ms [t|] [k|] [st|]]; vm_compute; reflexivity.
Qed.

Lemma get_stream (b : ChatCompletionRequest) :
  get (body_value b) (js "stream")
  = match stream b with Some t => Val (JBool t) | None => Undefined end.
Proof.
  destruct b as [m ms [t|] [k|] [st|]]; vm_compute; reflexivity.
Qed.

Lemma valid_role_truthy (r : jsstring) : valid_role (JStr r) = true -> truthy (JStr r) = true.
Proof. destruct r; [vm_compute; discriminate|reflexivity]. Qed.

Lemma check_messages_typed (ms : list ChatMessage) :
  forall index : nat,
    check_messages index (map message_value ms)
    = Return ((fun e : jsstring * string => invalid_request e.1 e.2)
                <$> first_invalid index ms).
Proof.
  induction ms as [|m ms IH]; intros index; [reflexivity|].
  cbn [map check_messages first_invalid].
  replace (get (message_value m) (js "content")) with (Val (JStr (content m)))
    by (vm_compute; reflexivity).
  replace (get (message_value m) (js "role")) with (Val (JStr (role m)))
    by (vm_compute; reflexivity).
  cbn [prop_truthy].
  destruct (valid_role (JStr (role m))) eqn:Hrole.
  - rewrite (valid_role_truthy _ Hrole). cbn [negb orb].
    destruct (content m) as [|c text]; [reflexivity|]. cbn [truthy negb]. apply IH.
  - rewrite orb_true_r. reflexivity.
Qed.

(** On a request whose fields have their declared types the validator is
    the list of checks, made in order up to the first that fails; the
    [stream] flag, a boolean, always passes. *)
Lemma validate_typed (b : ChatCompletionRequest) :
  validateRequestBody (body_value b)
  = Return ((fun e : jsstring * string => invalid_request e.1 e.2)
              <$> first_failure (typed_checks b)).
Proof.
  unfold validateRequestBody, typed_checks, first_failure. cbn [foldr].
  rewrite get_model, get_messages. cbn [prop_truthy truthy].
  destruct (model b) as [|c m]; [reflexivity|]. cbn [negb].
  replace (bool_decide (c :: m = [])) with false by reflexivity.
  destruct (messages b) as [|m0 ms] eqn:Hms; [reflexivity|].
  replace (bool_decide (m0 :: ms = [])) with false by reflexivity.
  cbn [map].
  change (check_messages 0 (message_value m0 :: map message_value ms))
    with (check_messages 0 (map message_value (m0 :: ms))).
  rewrite check_messages_typed.
  destruct (first_invalid 0 (m0 :: ms)) as [e|]; [reflexivity|]. cbn [fmap option_fmap option_map].
  unfold check_temperature, check_max_tokens, check_stream.
  rewrite get_temperature, get_max_tokens, get_stream.
  destruct (temperature b) as [t|]; cbn [temperature_ok].
  - destruct (negb (num_ltb t (of_Z 0)) && negb (num_ltb (of_Z 2) t)); [|reflexivity].
    destruct (max_tokens b) as [k|]; cbn [max_tokens_ok].
    + destruct (negb (num_ltb k (of_Z 1))); [|reflexivity].
      destruct (stream b); reflexivity.
    + destruct (stream b); reflexivity.
  - destruct (max_tokens b) as [k|]; cbn [max_tokens_ok].
    + destruct (negb (num_ltb k (of_Z 1))); [|reflexivity].
      destruct (stream b); reflexivity.
    + destruct (stream b); reflexivity.
Qed.

End TypedValidation.

Lemma first_invalid_None (ms : list ChatMessage) :
  forall index : nat,
    first_invalid index ms = None
    <-> Forall (fun m => valid_role (JStr (role m)) = true /\ content m <> []) ms.
Proof.
  induction ms as [|m ms IH]; intros index; cbn [first_invalid].
  - split; [constructor|reflexivity].
  - destruct (valid_role (JStr (role m))) eqn:Hr; cbn [negb].
    + destruct (content m) as [|c t] eqn:Hc.
      * split; [discriminate|]. inversion 1 as [|? ? [_ Hne] _]. congruence.
      * replace (bool_decide (c :: t = [])) with false by reflexivity.
        rewrite IH. split.
        -- intros H. constructor; [split; [exact Hr|rewrite Hc; discriminate]|exact H].
        -- inversion 1; assumption.
    + split; [discriminate|]. inversion 1 as [|? ? [Hv _] _]. congruence.
Qed.

Lemma filter_valid_all (ms : list ChatMessage) :
  Forall (fun m => content m <> []) ms ->
  filter (fun m => valid_message m = true) ms = ms.
Proof.
  induction 1 as [|m ms Hc _ IH]; [reflexivity|].
  assert (Hm : valid_message m = true).
  { unfold valid_message. destruct (content m); [congruence|reflexivity]. }
  rewrite filter_cons, decide_True by exact Hm. rewrite IH. reflexivity.
Qed.

(** When the validator declares a typed request valid. *)
Lemma valid_body_iff (b : ChatCompletionRequest) :
  validateRequestBody (body_value b) = Return None
   <-> model b <> []
       /\ messages b <> []
       /\ Forall (fun m => valid_role (JStr (role m)) = true /\ content m <> []) (messages b)
       /\ match temperature b with
          | Some t => num_ltb t (of_Z 0) = false /\ num_ltb (of_Z 2) t = false
          | None => True
          end
       /\ match max_tokens b with
          | Some k => num_ltb k (of_Z 1) = false
          | None => True
          end.
Proof.
  rewrite validate_typed. unfold first_failure, typed_checks. cbn [foldr].
  rewrite <- (first_invalid_None (messages b) 0).
  destruct (model b) as [|c m].
  { split; [discriminate|]. intros [H _]. congruence. }
  replace (bool_decide (c :: m = [])) with false by reflexivity.
  destruct (messages b) as [|m0 ms].
  { split; [discriminate|]. intros (_ & H & _). congruence. }
  replace (bool_decide (m0 :: ms = [])) with false by reflexivity.
  destruct (first_invalid 0 (m0 :: ms)) as [e|].
  { split; [discriminate|]. intros (_ & _ & H & _). discriminate. }
  destruct (temperature b) as [t|].
  - destruct (num_ltb t (of_Z 0)); cbn [negb andb].
    { split; [discriminate|]. intros (_ & _ & _ & [H _] & _). discriminate. }
    destruct (num_ltb (of_Z 2) t); cbn [negb].
    { split; [discriminate|]. intros (_ & _ & _ & [_ H] & _). discriminate. }
    destruct (max_tokens b) as [k|].
    + destruct (num_ltb k (of_Z 1)); cbn [negb].
      * split; [discriminate|]. intros (_ & _ & _ & _ & H). discriminate.
      * split; [intros _; repeat split; discriminate|reflexivity].
    + split; [intros _; repeat split; discriminate|reflexivity].
  - destruct (max_tokens b) as [k|].
    + destruct (num_ltb k (of_Z 1)); cbn [negb].
      * split; [discriminate|]. intros (_ & _ & _ & _ & H). discriminate.
      * split; [intros _; repeat split; discriminate|reflexivity].
    + split; [intros _; repeat split; discriminate|reflexivity].
Qed.

Lemma valid_body_messages (b : ChatCompletionRequest) :
  validateRequestBody (body_value b) = Return None ->
  filter (fun m => valid_message m = true) (messages b) = messages b
  /\ messages b <> [].
Proof.
  intros Hv. apply valid_body_iff in Hv. destruct Hv as (_ & Hne & Hall & _).
  split; [|exact Hne].
  apply filter_valid_all. eapply Forall_impl; [exact Hall|]. intros m [_ Hm]. exact Hm.
Qed.

(** C5: the validator tests the content of a message for truthiness only.
    A message whose content is the number 5 passes every check and the body
    is declared valid, although the content is not a string; and a message
    that is [null] makes the validator throw instead of answering 400. The
    three bodies named in the claim are rejected as it says. *)
Theorem validator_accepts_numeric_content :
  validate_text numeric_content = Some (Return None)
  /\ validate_text null_message
     = Some (Throw (TypeError (js "Cannot read properties of null (reading 'content')")))
  /\ rejected_param <$> validate_text bogus_role = Some (Some (js "messages"))
  /\ rejected_param <$> validate_text temperature_3 = Some (Some (js "temperature"))
  /\ rejected_param <$> validate_text max_tokens_0 = Some (Some (js "max_tokens")).
Proof. vm_compute. repeat split; reflexivity. Qed.

(** ** Failures of the completion engine *)


(** The options the engine calls the binding with. *)
Definition options_of (params : ChatCompletionRequest) (streaming : bool) : RunOptions :=
  {| run_messages := filter (fun m => valid_message m = true) (messages params);
     run_stream := streaming;
     run_max_tokens := or_default (max_tokens params) (of_Z 256);
     run_temperature := or_default (temperature params) (Num 7 (-1)) |}.

(** The request the controller passes to the engine. *)
Definition params_of (b : ChatCompletionRequest) : ChatCompletionRequest :=
  {| model := model b; messages := messages b; temperature := temperature b;
     max_tokens := max_tokens b; stream := Some (default false (stream b)) |}.




(** The body of a streamed answer whose upstream is the relay [up]. *)
Definition streamed (clock : nat -> Z) (randomUUID : nat -> jsstring) (model : jsstring)
    (up : ByteStream) : Body :=
  StreamBody (fst (start clock randomUUID model (decoded up)))
    (snd (start clock randomUUID model (decoded up))).

(** In streaming mode the engine hands out its relay before the binding is
    called, and the controller answers 200 with the transcoding of the
    relay. *)
Lemma streaming_answer
    (clock : nat -> Z) (randomUUID : nat -> jsstring) (models : list AIModel)
    (run : jsstring -> RunOptions -> outcome AiReply)
    (b : ChatCompletionRequest) (info : option RateLimitInfo) (mi : AIModel) :
  validateRequestBody (body_value b) = Return None ->
  find_model models (model b) = Some mi -> supports_chat mi = true ->
  filter (fun m => valid_message m = true) (messages b) <> [] ->
  default false (stream b) = true ->
  generateChatCompletion models run (params_of b)
  = Return (Streaming (relay (run (model b) (options_of b true))))
  /\ createChatCompletion clock randomUUID models run b info
     = secured
         {| status := 200;
            headers :=
              rate_limit_headers info
                (set "Connection" "keep-alive"
                   (set "Cache-Control" "no-cache"
                      (set "Content-Type" "text/event-stream" ∅)));
            body := streamed clock randomUUID (model b)
                      (relay (run (model b) (options_of b true))) |}.
Proof.
  intros Hv Hf Hc Hm Hs. unfold createChatCompletion, params_of. rewrite Hv, Hs.
  unfold generateChatCompletion, options_of, streamed.
  cbn [model messages stream temperature max_tokens default from_option Datatypes.id].
  rewrite Hf, Hc. cbn [negb].
  destruct (filter _ (messages b)) as [|m ms] eqn:Hfm; [congruence|].
  split; [reflexivity|].
  destruct (start _ _ _ _) as [events ending]. reflexivity.
Qed.

(** A streaming request for the model of [one_model], a binding that is
    down, one that gives nothing, and one whose reply carries the number 5
    for [response]. *)
Definition streamed_40 : ChatCompletionRequest :=
  {| model := js "m";
     messages := [ {| role := js "user"; content := repeat 98%N 40 |} ];
     temperature := None; max_tokens := None; stream := Some true |}.

Definition binding_down (_ : jsstring) (_ : RunOptions) : outcome AiReply :=
  Throw (Error (js "binding down")).







(** ** The streaming transcoder *)

(** The text read so far, cut at its newlines: the complete lines, and the
    part after the last newline. *)
Fixpoint scan (s : jsstring) : list jsstring * jsstring :=
  match s with
  | [] => ([], [])
  | c :: r =>
      let '(ls, t) := scan r in
      if N.eqb c 10 then ([] :: ls, t)
      else match ls with
           | [] => ([], c :: t)
           | l :: ls' => ((c :: l) :: ls', t)
           end
  end.

(** [text.split('\n')] *)
Definition split_lines (text : jsstring) : list jsstring :=
  fst (scan text) ++ [snd (scan text)].

(** The lines of the text that are not empty. *)
Definition nonempty_lines (text : jsstring) : list jsstring :=
  filter (fun l => l <> []) (split_lines text).

(** The text of a line after its prefix [data: ], if it has one. *)
Definition payload (line : jsstring) : jsstring :=
  if startsWith line (js "data: ") then slice_from line 6 else line.

(** The event a line decodes to: none for an empty payload, for the marker
    [[DONE]] and for a payload that [JSON.parse] rejects. *)
Definition decode (line : jsstring) : option value :=
  if bool_decide (payload line = []) || str_eqb (payload line) (js "[DONE]") then None
  else Json.parse (payload line).

Section Transcript.

Variable clock : nat -> Z.
Variable randomUUID : nat -> jsstring.
Variable model : jsstring.

(** The three kinds of chunk, built from the k-th identifier and the k-th
    clock reading. *)
Definition role_chunk (k : nat) : StreamChunk :=
  chunk (fresh_id randomUUID k) (seconds clock k) model (DeltaRole (js "assistant")) None.

Definition content_chunk (k : nat) (v : value) : StreamChunk :=
  chunk (fresh_id randomUUID k) (seconds clock k) model (DeltaContent v) None.

Definition terminal_chunk (k : nat) : StreamChunk :=
  chunk (fresh_id randomUUID k) (seconds clock k) model DeltaEmpty (Some (js "stop")).

(** The content chunk of the k-th decoded event, if the event carries a
    response. *)
Definition content_of (k : nat) (d : value) : list Event :=
  match get d (js "response") with
  | Val v => if truthy v then [Data (content_chunk k v)] else []
  | _ => []
  end.

Fixpoint contents (k : nat) (ds : list value) : list Event :=
  match ds with
  | [] => []
  | d :: ds' => content_of k d ++ contents (S k) ds'
  end.

Definition role_part (ds : list value) : list Event :=
  match ds with
  | [] => []
  | _ :: _ => [Data (role_chunk 0)]
  end.

(** What a stream that decodes to the events [ds] is transcoded to, up to
    the end of the upstream. *)
Definition body_events (ds : list value) : list Event :=
  role_part ds ++ contents 0 ds.

(** The whole output for an upstream that ends normally. *)
Definition render (ds : list value) : list Event :=
  body_events ds ++ [Data (terminal_chunk (length ds)); Done].

Definition feed (lines : list jsstring) (st : Transcoder) : Transcoder :=
  fold_left (fun st l => processChunk clock randomUUID model l st) lines st.

End Transcript.

(** [lines.join('\n')] *)
Definition join_lines (ls : list jsstring) : jsstring :=
  match ls with
  | [] => []
  | l :: rest => l ++ concat (map (cons 10%N) rest)
  end.

Section Scan.

(** [split_lines] is the inverse of [join_lines] on lines without
    newline. *)
Lemma split_lines_join (s : jsstring) : join_lines (split_lines s) = s.
Proof.
  unfold split_lines. induction s as [|c r IH]; [reflexivity|].
  cbn [scan]. destruct (scan r) as [ls t]. cbn [fst snd] in *.
  destruct (N.eqb c 10) eqn:Hc.
  - apply N.eqb_eq in Hc. subst c. cbn [fst snd app join_lines].
    destruct ls as [|l ls]; cbn [app join_lines map concat] in *; rewrite <- IH; reflexivity.
  - destruct ls as [|l ls]; cbn [fst snd app join_lines map concat] in *; rewrite <- IH;
      reflexivity.
Qed.

Lemma split_lines_no_newline (s : jsstring) :
  Forall (fun l => indexOf l 10 = None) (split_lines s).
Proof.
  unfold split_lines. induction s as [|c r IH]; [repeat constructor|].
  cbn [scan]. destruct (scan r) as [ls t]. cbn [fst snd] in *.
  destruct (N.eqb c 10) eqn:Hc.
  - cbn [fst snd app]. constructor; [reflexivity|exact IH].
  - destruct ls as [|l ls]; cbn [fst snd app] in *.
    + inversion IH as [|? ? Ht _]; subst. repeat constructor.
      cbn [indexOf]. rewrite Hc, Ht. reflexivity.
    + inversion IH as [|? ? Hl Hrest]; subst. constructor; [|exact Hrest].
      cbn [indexOf]. rewrite Hc, Hl. reflexivity.
Qed.

Lemma scan_no_newline (s : jsstring) : indexOf s 10 = None -> scan s = ([], s).
Proof.
  induction s as [|c r IH]; cbn [indexOf scan]; [reflexivity|].
  destruct (N.eqb c 10); [discriminate|].
  destruct (indexOf r 10); [discriminate|]. intros _. rewrite IH by reflexivity.
  reflexivity.
Qed.

Lemma scan_newline (s : jsstring) :
  forall i : nat,
    indexOf s 10 = Some i ->
    scan s = (take i s :: fst (scan (drop (S i) s)), snd (scan (drop (S i) s))).
Proof.
  induction s as [|c r IH]; intros i; cbn [indexOf scan]; [discriminate|].
  destruct (N.eqb c 10).
  - intros [= <-]. change (drop 1 (c :: r)) with r. destruct (scan r). reflexivity.
  - destruct (indexOf r 10) as [j|]; [|discriminate]. intros [= <-].
    rewrite (IH j eq_refl). reflexivity.
Qed.

Lemma scan_trailing (s : jsstring) : indexOf (snd (scan s)) 10 = None.
Proof.
  induction s as [|c r IH]; cbn [scan]; [reflexivity|].
  destruct (scan r) as [ls t]. cbn [snd] in IH.
  destruct (N.eqb c 10) eqn:Hc; [exact IH|].
  destruct ls; cbn [snd]; [|exact IH].
  cbn [indexOf]. rewrite Hc, IH. reflexivity.
Qed.

Lemma scan_app (a b : jsstring) :
  scan (a ++ b)
  = (fst (scan a) ++ fst (scan (snd (scan a) ++ b)), snd (scan (snd (scan a) ++ b))).
Proof.
  induction a as [|c r IH].
  - cbn. destruct (scan b). reflexivity.
  - cbn [app scan]. rewrite IH. destruct (scan r) as [lr tr]. cbn [fst snd].
    destruct (N.eqb c 10) eqn:Hc; [reflexivity|].
    destruct lr as [|l lr']; cbn [fst snd app]; [|reflexivity].
    cbn [scan]. rewrite Hc. destruct (scan (tr ++ b)) as [lx tx]. cbn [fst snd].
    destruct lx; reflexivity.
Qed.

Lemma split_lines_app_newline (a b : jsstring) :
  split_lines (a ++ 10%N :: b) = fst (scan a) ++ snd (scan a) :: split_lines b.
Proof.
  unfold split_lines. rewrite scan_app.
  pose proof (scan_trailing a) as Ht. destruct (scan a) as [la ta]. cbn [fst snd] in *.
  rewrite (scan_newline (ta ++ 10%N :: b) (length ta)).
  - rewrite take_app_length.
    replace (drop (S (length ta)) (ta ++ 10%N :: b)) with b.
    + cbn [fst snd]. rewrite <- app_assoc. reflexivity.
    + replace (ta ++ 10%N :: b) with ((ta ++ [10%N]) ++ b)
        by (rewrite <- app_assoc; reflexivity).
      rewrite drop_app_length'; [reflexivity|]. rewrite length_app. cbn. lia.
  - clear -Ht. induction ta as [|c r IH]; [reflexivity|].
    cbn [indexOf app] in *. destruct (N.eqb c 10); [discriminate|].
    destruct (indexOf r 10); [discriminate|]. rewrite IH by reflexivity. reflexivity.
Qed.

End Scan.

Section Transcoding.

Variable clock : nat -> Z.
Variable randomUUID : nat -> jsstring.
Variable model : jsstring.

Local Abbreviation process := (processChunk clock randomUUID model).
Local Abbreviation role_at := (role_chunk clock randomUUID model).
Local Abbreviation contents_from := (contents clock randomUUID model).

(** A state whose two counters agree. *)
Definition at_count (b : jsstring) (sent : bool) (evs : list Event) (k : nat) : Transcoder :=
  {| buffer := b; sentRole := sent; enqueued := evs; ticks := k; uuids := k |}.

Lemma process_decode (line b : jsstring) (sent : bool) (evs : list Event) (k : nat) :
  process line (at_count b sent evs k)
  = match decode line with
    | None => at_count b sent evs k
    | Some d =>
        at_count b true
          (evs ++ (if sent then [] else [Data (role_at k)])
               ++ content_of clock randomUUID model k d)
          (S k)
    end.
Proof.
  unfold processChunk, decode, payload.
  destruct (bool_decide _ || str_eqb _ _); [reflexivity|].
  destruct (Json.parse _) as [d|]; [|reflexivity].
  unfold content_of, at_count, enqueue.
  destruct sent; cbn [negb sentRole enqueued buffer ticks uuids].
  - destruct (get d (js "response")) as [| |v]; rewrite ?app_nil_r; try reflexivity.
    destruct (truthy v); rewrite ?app_nil_r; reflexivity.
  - destruct (get d (js "response")) as [| |v]; rewrite ?app_nil_r; try reflexivity.
    destruct (truthy v); rewrite <- ?app_assoc, ?app_nil_r; reflexivity.
Qed.

Lemma decode_empty : decode [] = None.
Proof. reflexivity. Qed.

Lemma feed_cons (l : jsstring) (lines : list jsstring) (st : Transcoder) :
  feed clock randomUUID model (l :: lines) st
  = feed clock randomUUID model lines (process l st).
Proof. reflexivity. Qed.

Lemma feed_decoded (lines : list jsstring) :
  forall (b : jsstring) (sent : bool) (evs : list Event) (k : nat),
    feed clock randomUUID model lines (at_count b sent evs k)
    = at_count b
        (sent || match omap decode lines with [] => false | _ => true end)
        (evs ++ (if sent then []
                 else match omap decode lines with [] => [] | _ => [Data (role_at k)] end)
             ++ contents_from k (omap decode lines))
        (k + length (omap decode lines)).
Proof.
  induction lines as [|l lines IH]; intros b sent evs k.
  - cbn. rewrite orb_false_r, Nat.add_0_r. destruct sent; rewrite app_nil_r; reflexivity.
  - rewrite feed_cons, process_decode. cbn [omap list_omap].
    destruct (decode l) as [d|].
    + rewrite IH. cbn [orb length contents]. rewrite orb_true_r.
      rewrite Nat.add_succ_r. cbn [Nat.add]. f_equal.
      rewrite <- !app_assoc. cbn [app]. reflexivity.
    + apply IH.
Qed.

Lemma contents_app (k : nat) (a b : list value) :
  contents_from k (a ++ b) = contents_from k a ++ contents_from (k + length a) b.
Proof.
  revert k. induction a as [|d a IH]; intros k; cbn [app contents length].
  - rewrite Nat.add_0_r. reflexivity.
  - rewrite IH, <- app_assoc, Nat.add_succ_r. reflexivity.
Qed.

Lemma set_buffer_at (b' b : jsstring) (sent : bool) (evs : list Event) (k : nat) :
  set_buffer b' (at_count b sent evs k) = at_count b' sent evs k.
Proof. reflexivity. Qed.

Lemma feed_at (lines : list jsstring) (b b' : jsstring) (sent : bool)
    (evs : list Event) (k : nat) :
  set_buffer b' (feed clock randomUUID model lines (at_count b sent evs k))
  = feed clock randomUUID model lines (at_count b' sent evs k).
Proof. rewrite !feed_decoded. reflexivity. Qed.

Lemma feed_app (l1 l2 : list jsstring) (st : Transcoder) :
  feed clock randomUUID model (l1 ++ l2) st
  = feed clock randomUUID model l2 (feed clock randomUUID model l1 st).
Proof. apply fold_left_app. Qed.

Lemma lines_loop_feed (n : nat) :
  forall (b : jsstring) (sent : bool) (evs : list Event) (k : nat),
    (length b <= n)%nat ->
    lines_loop clock randomUUID n model (at_count b sent evs k)
    = feed clock randomUUID model (fst (scan b)) (at_count (snd (scan b)) sent evs k).
Proof.
  induction n as [|n IH]; intros b sent evs k Hlen.
  - destruct b; [reflexivity|cbn in Hlen; lia].
  - cbn [lines_loop buffer at_count].
    destruct (indexOf b 10) as [i|] eqn:Hi.
    + rewrite (scan_newline b i Hi). cbn [fst snd]. rewrite feed_cons.
      unfold slice_from, slice_to. rewrite Nat.add_1_r.
      assert (Hstep :
        match take i b with
        | [] => set_buffer (drop (S i) b) (at_count b sent evs k)
        | _ :: _ => process (take i b) (set_buffer (drop (S i) b) (at_count b sent evs k))
        end
        = process (take i b) (at_count (drop (S i) b) sent evs k)).
      { rewrite set_buffer_at. destruct (take i b) eqn:Ht; [|reflexivity].
        rewrite process_decode, decode_empty. reflexivity. }
      cbn [at_count] in Hstep. cbn [at_count]. rewrite Hstep. clear Hstep.
      fold (at_count (drop (S i) b) sent evs k).
      fold (at_count (snd (scan (drop (S i) b))) sent evs k).
      rewrite !process_decode.
      assert (Hshort : (length (drop (S i) b) <= n)%nat).
      { rewrite length_drop. lia. }
      destruct (decode (take i b)) as [d|]; rewrite (IH _ _ _ _ Hshort); reflexivity.
    + rewrite (scan_no_newline b Hi). reflexivity.
Qed.

(** The reading loop, from a state whose buffer holds no newline. *)
Lemma read_loop_feed (reads : list jsstring) (f : option exn) :
  forall (b : jsstring) (sent : bool) (evs : list Event) (k : nat),
    indexOf b 10 = None ->
    read_loop clock randomUUID model reads f (at_count b sent evs k)
    = let text := b ++ concat reads in
      let st := feed clock randomUUID model (fst (scan text))
                  (at_count (snd (scan text)) sent evs k) in
      match f with
      | Some e => (st, Errored e)
      | None => (finish clock randomUUID model st, Closed)
      end.
Proof.
  induction reads as [|text reads IH]; intros b sent evs k Hb.
  - cbn [read_loop concat]. rewrite app_nil_r, (scan_no_newline b Hb). reflexivity.
  - cbn [read_loop concat]. rewrite set_buffer_at. cbn [buffer at_count].
    fold (at_count (b ++ text) sent evs k).
    rewrite (lines_loop_feed _ _ _ _ _ (le_n _)).
    rewrite feed_decoded. rewrite (IH _ _ _ _ (scan_trailing (b ++ text))).
    rewrite (app_assoc b text), (scan_app (b ++ text) (concat reads)).
    cbn [fst snd]. cbv zeta. rewrite feed_app.
    rewrite (feed_decoded (fst (scan (b ++ text)))). reflexivity.
Qed.

Lemma finish_at (b : jsstring) (sent : bool) (evs : list Event) (k : nat) :
  enqueued (finish clock randomUUID model (at_count b sent evs k))
  = enqueued (feed clock randomUUID model [b] (at_count b sent evs k))
    ++ [Data (terminal_chunk clock randomUUID model
                (uuids (feed clock randomUUID model [b] (at_count b sent evs k))));
        Done].
Proof.
  rewrite feed_cons. cbn [feed fold_left].
  destruct b as [|c r].
  - rewrite process_decode, decode_empty. cbn. rewrite <- app_assoc. reflexivity.
  - unfold finish. cbn [buffer at_count]. fold (at_count (c :: r) sent evs k).
    rewrite process_decode.
    destruct (decode (c :: r)); cbn; rewrite <- ?app_assoc; reflexivity.
Qed.

(** The transcoder depends on the text read, not on how it is cut into
    chunks: it decodes the lines of the text in order. On an upstream that
    ends, the output is [render]; on a read that fails, the output is
    errored after the events of the complete lines. *)
Lemma start_render (reads : list jsstring) (f : option exn) :
  start clock randomUUID model {| chunks := reads; failure := f |}
  = match f with
    | None =>
        (render clock randomUUID model (omap decode (split_lines (concat reads))), Closed)
    | Some e =>
        (body_events clock randomUUID model (omap decode (fst (scan (concat reads)))),
         Errored e)
    end.
Proof.
  unfold start. cbn [chunks failure].
  change initial with (at_count [] false [] 0).
  rewrite (read_loop_feed reads f [] false [] 0 eq_refl). cbn [app]. cbv zeta.
  destruct f as [e|].
  - rewrite feed_decoded. reflexivity.
  - rewrite feed_decoded, finish_at, feed_decoded.
    cbn [at_count enqueued uuids].
    unfold render, body_events, split_lines, role_part.
    rewrite omap_app, contents_app, length_app. cbn [app orb Nat.add].
    set (ds := omap decode (fst (scan (concat reads)))).
    set (dt := omap decode [snd (scan (concat reads))]).
    destruct ds as [|d0 ds]; cbn [app length Nat.add].
    + destruct dt; reflexivity.
    + rewrite <- !app_assoc. reflexivity.
Qed.

End Transcoding.

Lemma omap_step {A B : Type} (f : A -> option B) (x : A) (l : list A) :
  omap f (x :: l) = match f x with Some y => y :: omap f l | None => omap f l end.
Proof. reflexivity. Qed.

Lemma omap_decode_nonempty (ls : list jsstring) :
  omap decode (filter (fun l => l <> []) ls) = omap decode ls.
Proof.
  induction ls as [|l ls IH]; [reflexivity|].
  rewrite filter_cons. destruct (decide (l <> [])) as [Hl|Hl].
  - rewrite !omap_step, IH. reflexivity.
  - destruct l; [|exfalso; apply Hl; discriminate].
    rewrite omap_step, decode_empty. exact IH.
Qed.

(** The two upstream lines of the example. *)
Definition hi_line : jsstring := jsq "data: {'response':'Hi'}".
Definition there_line : jsstring := jsq "data: {'response':' there'}".

(** C1: whatever the chunks the upstream text arrives in, and whatever
    empty lines it has, if its non-empty lines are the two lines
    [data: {"response":"Hi"}] and [data: {"response":" there"}] then the
    output is, in this order, the role chunk, the content chunk of [Hi],
    the content chunk of [ there], the terminal chunk with
    [finish_reason: "stop"] and the sentinel, and the output is closed. *)
Theorem transcode_hi_there
    (clock : nat -> Z) (randomUUID : nat -> jsstring) (model : jsstring)
    (reads : list jsstring) :
  nonempty_lines (concat reads) = [hi_line; there_line] ->
  start clock randomUUID model {| chunks := reads; failure := None |}
  = ([ Data (chunk (js "chatcmpl-" ++ randomUUID 0%nat) (clock 0%nat / 1000) model
              (DeltaRole (js "assistant")) None);
       Data (chunk (js "chatcmpl-" ++ randomUUID 0%nat) (clock 0%nat / 1000) model
              (DeltaContent (JStr (js "Hi"))) None);
       Data (chunk (js "chatcmpl-" ++ randomUUID 1%nat) (clock 1%nat / 1000) model
              (DeltaContent (JStr (js " there"))) None);
       Data (chunk (js "chatcmpl-" ++ randomUUID 2%nat) (clock 2%nat / 1000) model
              DeltaEmpty (Some (js "stop")));
       Done ],
     Closed).
Proof.
  intros Hlines. rewrite start_render.
  rewrite <- omap_decode_nonempty. fold (nonempty_lines (concat reads)).
  rewrite Hlines. vm_compute. reflexivity.
Qed.

(** A clock that advances one second per reading, and identifiers
    [u0], [u1], ... *)
Definition ticking (k : nat) : Z := 1700000000000 + 1000 * Z.of_nat k.
Definition numbered (k : nat) : jsstring := js "u" ++ toString (Z.of_nat k).

(** The text of the example cut in the middle of its second line, with two
    empty lines, the last line without its newline. *)
Definition hi_there_reads : list jsstring :=
  [ jsq "data: {'response':'Hi'}" ++ [10%N; 10%N];
    10%N :: jsq "data: {'respo";
    jsq "nse':' there'}" ].

Lemma transcode_hi_there_witness :
  start ticking numbered (js "m") {| chunks := hi_there_reads; failure := None |}
  = ([ Data (chunk (js "chatcmpl-" ++ numbered 0%nat) (ticking 0%nat / 1000) (js "m")
              (DeltaRole (js "assistant")) None);
       Data (chunk (js "chatcmpl-" ++ numbered 0%nat) (ticking 0%nat / 1000) (js "m")
              (DeltaContent (JStr (js "Hi"))) None);
       Data (chunk (js "chatcmpl-" ++ numbered 1%nat) (ticking 1%nat / 1000) (js "m")
              (DeltaContent (JStr (js " there"))) None);
       Data (chunk (js "chatcmpl-" ++ numbered 2%nat) (ticking 2%nat / 1000) (js "m")
              DeltaEmpty (Some (js "stop")));
       Done ],
     Closed).
Proof.
  apply (transcode_hi_there ticking numbered (js "m") hi_there_reads).
  vm_compute. reflexivity.
Defined.

(** ** The role chunk *)

(** C4, as stated, fails: the upstream line [data: {}] carries no response
    fragment, and the output has a role chunk, with no content chunk after
    it. *)
Lemma role_without_content :
  start ticking numbered (js "m")
    {| chunks := [jsq "data: {}" ++ [10%N]]; failure := None |}
  = ([ Data (chunk (js "chatcmpl-u0") 1700000000 (js "m") (DeltaRole (js "assistant")) None);
       Data (chunk (js "chatcmpl-u1") 1700000001 (js "m") DeltaEmpty (Some (js "stop")));
       Done ],
     Closed).
Proof. vm_compute. reflexivity. Qed.

(** An event is a content chunk: it has a content and no role. *)
Definition is_content (e : Event) : Prop :=
  match e with
  | Data c => match ch_delta c with DeltaContent _ => True | _ => False end
  | Done => False
  end.

Lemma contents_are_content (clock : nat -> Z) (randomUUID : nat -> jsstring)
    (model : jsstring) (ds : list value) :
  forall k : nat, Forall is_content (contents clock randomUUID model k ds).
Proof.
  induction ds as [|d ds IH]; intros k; cbn [contents]; [constructor|].
  apply Forall_app. split; [|apply IH].
  unfold content_of. destruct (get d (js "response")) as [| |v]; try constructor.
  destruct (truthy v); repeat constructor.
Qed.

(** The lines that the transcoder passes to [processChunk]: every line of
    the text read when the upstream ends, the last one included though no
    newline ends it; the lines that a newline ends when a read fails. *)
Definition processed_lines (reads : list jsstring) (f : option exn) : list jsstring :=
  match f with
  | None => split_lines (concat reads)
  | Some _ => fst (scan (concat reads))
  end.

(** What ends the output: the terminal chunk, numbered [k], and the
    sentinel when the upstream ends; nothing when a read fails. *)
Definition closing (clock : nat -> Z) (randomUUID : nat -> jsstring) (model : jsstring)
    (f : option exn) (k : nat) : list Event :=
  match f with
  | None => [Data (terminal_chunk clock randomUUID model k); Done]
  | Some _ => []
  end.

Definition ending_of (f : option exn) : StreamEnd :=
  match f with None => Closed | Some e => Errored e end.

(** C4, amended: whether the upstream ends or a read of it fails, the role
    chunk is emitted if and only if some line that the transcoder
    processes decodes to an event, whether or not the event carries a
    response fragment. It is then the first event of the output, emitted
    once, immediately before the content chunk of the first decoded event
    when that event has one, and every event between it and the end of the
    output is a content chunk. When no processed line decodes, the output
    has no role chunk: it is the terminal chunk and the sentinel alone when
    the upstream ends, and empty when a read fails. *)
Theorem role_chunk_first
    (clock : nat -> Z) (randomUUID : nat -> jsstring) (model : jsstring)
    (reads : list jsstring) (f : option exn) :
  match omap decode (processed_lines reads f) with
  | [] =>
      start clock randomUUID model {| chunks := reads; failure := f |}
      = (closing clock randomUUID model f 0, ending_of f)
  | d :: ds =>
      start clock randomUUID model {| chunks := reads; failure := f |}
      = (Data (chunk (js "chatcmpl-" ++ randomUUID 0%nat) (clock 0%nat / 1000) model
                 (DeltaRole (js "assistant")) None)
           :: (match get d (js "response") with
               | Val v =>
                   if truthy v
                   then [Data (chunk (js "chatcmpl-" ++ randomUUID 0%nat)
                                 (clock 0%nat / 1000) model (DeltaContent v) None)]
                   else []
               | _ => []
               end
               ++ contents clock randomUUID model 1 ds)
           ++ closing clock randomUUID model f (S (length ds)),
         ending_of f)
      /\ Forall is_content (contents clock randomUUID model 1 ds)
  end.
Proof.
  rewrite start_render. unfold processed_lines, closing, ending_of.
  destruct f as [e|].
  - destruct (omap decode (fst (scan (concat reads)))) as [|d ds]; [reflexivity|].
    split; [|apply contents_are_content].
    unfold body_events, role_part. cbn [contents app]. rewrite app_nil_r. reflexivity.
  - destruct (omap decode (split_lines (concat reads))) as [|d ds]; [reflexivity|].
    split; [reflexivity|]. apply contents_are_content.
Qed.

(** A read that fails after a line that no newline ends: the line
    decodes, and is not processed. *)
Lemma role_chunk_first_failed_read :
  start ticking numbered (js "m")
    {| chunks := [jsq "data: {'response':'Hi'}"]; failure := Some (Error (js "reset")) |}
  = ([], Errored (Error (js "reset")))
  /\ omap decode (processed_lines [jsq "data: {'response':'Hi'}"] (Some (Error (js "reset"))))
     = [].
Proof. vm_compute. split; reflexivity. Qed.

(** ** Chunk identifiers *)

(** C9, as stated, fails: in the output of the example the role chunk and
    the content chunk of [Hi], two different chunks, carry the same
    identifier, which was generated once for the upstream line. *)
Lemma role_and_content_share_id :
  exists a b : StreamChunk,
    fst (start ticking numbered (js "m") {| chunks := hi_there_reads; failure := None |})
      !! 0%nat = Some (Data a)
    /\ fst (start ticking numbered (js "m") {| chunks := hi_there_reads; failure := None |})
         !! 1%nat = Some (Data b)
    /\ a <> b
    /\ ch_id a = ch_id b.
Proof.
  eexists _, _. split; [vm_compute; reflexivity|]. split; [vm_compute; reflexivity|].
  split; [discriminate|reflexivity].
Qed.

Section Identifiers.

Variable clock : nat -> Z.
Variable randomUUID : nat -> jsstring.
Variable model : jsstring.

(** Two draws of the generator never give the same identifier. *)
Hypothesis fresh : forall i j : nat, randomUUID i = randomUUID j -> i = j.

Local Abbreviation contents_from := (contents clock randomUUID model).

Lemma fresh_id_inj (i j : nat) : fresh_id randomUUID i = fresh_id randomUUID j -> i = j.
Proof using fresh. unfold fresh_id. intros H. apply app_inv_head in H. auto. Qed.

(** The index and the content of the content chunks of the events [ds],
    the first of which is the k-th decoded event. *)
Fixpoint tags (k : nat) (ds : list value) : list (nat * value) :=
  match ds with
  | [] => []
  | d :: ds' =>
      match get d (js "response") with
      | Val v => if truthy v then [(k, v)] else []
      | _ => []
      end ++ tags (S k) ds'
  end.

(** Every chunk of the output: the index of its identifier, its delta and
    its finish reason. *)
Definition of_tag (t : nat * Delta * option jsstring) : Event :=
  Data (chunk (fresh_id randomUUID t.1.1) (seconds clock t.1.1) model t.1.2 t.2).

Definition role_tag (ds : list value) : list (nat * Delta * option jsstring) :=
  match ds with
  | [] => []
  | _ :: _ => [(0%nat, DeltaRole (js "assistant"), None)]
  end.

Definition content_tags (k : nat) (ds : list value) : list (nat * Delta * option jsstring) :=
  (fun p : nat * value => (p.1, DeltaContent p.2, None)) <$> tags k ds.

Definition terminal_tag (closed : bool) (ds : list value)
    : list (nat * Delta * option jsstring) :=
  if closed then [(length ds, DeltaEmpty, Some (js "stop"))] else [].

Lemma contents_tags (ds : list value) :
  forall k : nat, contents_from k ds = of_tag <$> content_tags k ds.
Proof.
  unfold content_tags.
  induction ds as [|d ds IH]; intros k; cbn [contents tags]; [reflexivity|].
  rewrite !fmap_app, <- IH. f_equal.
  unfold content_of. destruct (get d (js "response")) as [| |v]; try reflexivity.
  destruct (truthy v); reflexivity.
Qed.

Lemma tags_bounds (ds : list value) :
  forall k : nat, Forall (fun p : nat * value => (k <= p.1 < k + length ds)%nat) (tags k ds).
Proof.
  induction ds as [|d ds IH]; intros k; cbn [tags length]; [constructor|].
  apply Forall_app. split.
  - destruct (get d (js "response")) as [| |v]; try constructor.
    destruct (truthy v); repeat constructor; cbn; lia.
  - eapply Forall_impl; [apply IH|]. cbn. intros p Hp. lia.
Qed.

Lemma tags_sorted (ds : list value) :
  forall k : nat, StronglySorted (fun p q : nat * value => (p.1 < q.1)%nat) (tags k ds).
Proof.
  induction ds as [|d ds IH]; intros k; cbn [tags]; [constructor|].
  assert (Hrest : Forall (fun q : nat * value => (k < q.1)%nat) (tags (S k) ds)).
  { eapply Forall_impl; [apply tags_bounds|]. cbn. intros p Hp. lia. }
  destruct (get d (js "response")) as [| |v]; cbn [app]; try apply IH.
  destruct (truthy v); cbn [app]; [|apply IH].
  constructor; [apply IH|exact Hrest].
Qed.

Lemma sorted_lookup_lt (c : list nat) :
  StronglySorted lt c ->
  forall (i j x y : nat), (i < j)%nat -> c !! i = Some x -> c !! j = Some y -> (x < y)%nat.
Proof.
  induction 1 as [|a c Hc IH Ha]; intros i j x y Hij Hi Hj; [discriminate|].
  destruct j as [|j]; [lia|]. cbn in Hj.
  destruct i as [|i]; cbn in Hi.
  - injection Hi as <-. rewrite Forall_forall in Ha. apply Ha.
    eapply list_elem_of_lookup_2. exact Hj.
  - apply (IH i j); [lia|assumption|assumption].
Qed.

(** A list of indices that is a possible [0] followed by a strictly
    increasing list repeats an index only at its first two places. *)
Lemma repeated_index (r c : list nat) :
  r = [] \/ r = [0%nat] ->
  StronglySorted lt c ->
  forall (i j x : nat),
    (i < j)%nat -> (r ++ c) !! i = Some x -> (r ++ c) !! j = Some x ->
    r = [0%nat] /\ i = 0%nat /\ j = 1%nat.
Proof.
  intros [-> | ->] Hc i j x Hij Hi Hj; cbn [app] in *.
  - pose proof (sorted_lookup_lt c Hc i j x x Hij Hi Hj). lia.
  - destruct j as [|j]; [lia|]. cbn in Hj.
    destruct i as [|i]; cbn in Hi.
    + injection Hi as <-. destruct j as [|j]; [repeat split; reflexivity|].
      destruct c as [|y c']; [discriminate|].
      pose proof (sorted_lookup_lt (y :: c') Hc 0 (S j) y 0 ltac:(lia) eq_refl Hj). lia.
    + pose proof (sorted_lookup_lt c Hc i j x x ltac:(lia) Hi Hj). lia.
Qed.

(** The events of the output, as tags. *)
Definition all_tags (closed : bool) (ds : list value) : list (nat * Delta * option jsstring) :=
  role_tag ds ++ content_tags 0 ds ++ terminal_tag closed ds.

Lemma all_tags_indices (closed : bool) (ds : list value) :
  (fun t : nat * Delta * option jsstring => t.1.1) <$> all_tags closed ds
  = ((fun t : nat * Delta * option jsstring => t.1.1) <$> role_tag ds)
    ++ ((fst <$> tags 0 ds) ++ (if closed then [length ds] else [])).
Proof.
  unfold all_tags, content_tags, terminal_tag.
  rewrite !fmap_app, <- list_fmap_compose. destruct closed; reflexivity.
Qed.

Lemma indices_sorted (closed : bool) (ds : list value) :
  StronglySorted lt ((fst <$> tags 0 ds) ++ (if closed then [length ds] else [])).
Proof.
  pose proof (tags_sorted ds 0) as Hs. pose proof (tags_bounds ds 0) as Hb.
  induction Hs as [|p l Hl IH Hp]; cbn [fmap list_fmap app].
  - destruct closed; repeat constructor.
  - inversion Hb as [|? ? Hp0 Hb']; subst. constructor; [apply IH; exact Hb'|].
    apply Forall_app. split.
    + apply Forall_fmap. exact Hp.
    + destruct closed; repeat constructor. cbn in Hp0. lia.
Qed.

Lemma output_tags (reads : list jsstring) (f : option exn) :
  exists (closed : bool) (ds : list value),
    fst (start clock randomUUID model {| chunks := reads; failure := f |})
    = (of_tag <$> all_tags closed ds) ++ (if closed then [Done] else []).
Proof.
  rewrite start_render. destruct f as [e|].
  - exists false, (omap decode (fst (scan (concat reads)))).
    cbn [fst]. unfold body_events, all_tags, terminal_tag.
    rewrite !app_nil_r, fmap_app, <- contents_tags.
    destruct (omap decode _); reflexivity.
  - exists true, (omap decode (split_lines (concat reads))).
    cbn [fst]. unfold render, body_events, all_tags, terminal_tag.
    rewrite !fmap_app, <- contents_tags, <- !app_assoc.
    destruct (omap decode _); reflexivity.
Qed.

End Identifiers.

Lemma data_of_tag (clock : nat -> Z) (randomUUID : nat -> jsstring) (model : jsstring)
    (T : list (nat * Delta * option jsstring)) (closed : bool) (i : nat) (a : StreamChunk) :
  ((of_tag clock randomUUID model <$> T) ++ (if closed then [Done] else [])) !! i
  = Some (Data a) ->
  exists t : nat * Delta * option jsstring,
    T !! i = Some t
    /\ a = chunk (fresh_id randomUUID t.1.1) (seconds clock t.1.1) model t.1.2 t.2.
Proof.
  intros H. apply lookup_app_Some in H. destruct H as [H | [_ H]].
  - rewrite list_lookup_fmap in H. destruct (T !! i) as [t|]; [|discriminate].
    exists t. split; [reflexivity|]. cbn in H. unfold of_tag in H. congruence.
  - destruct closed; [|rewrite lookup_nil in H; discriminate].
    destruct (i - _)%nat as [|n]; [discriminate|destruct n; discriminate].
Qed.

(** C9, amended: identifiers are generated once for each decoded upstream
    line and once for the terminal chunk. When the generator never repeats
    itself, two chunks of one response that carry the same identifier are
    the role chunk and the content chunk that follows it, both made from
    the first decoded line; any other two chunks have different
    identifiers. *)
Theorem distinct_ids
    (clock : nat -> Z) (randomUUID : nat -> jsstring) (model : jsstring)
    (reads : list jsstring) (f : option exn) (i j : nat) (a b : StreamChunk) :
  (forall m n : nat, randomUUID m = randomUUID n -> m = n) ->
  (i < j)%nat ->
  fst (start clock randomUUID model {| chunks := reads; failure := f |}) !! i = Some (Data a) ->
  fst (start clock randomUUID model {| chunks := reads; failure := f |}) !! j = Some (Data b) ->
  ch_id a = ch_id b ->
  i = 0%nat /\ j = 1%nat
  /\ ch_delta a = DeltaRole (js "assistant")
  /\ exists v : value, ch_delta b = DeltaContent v.
Proof.
  intros fresh Hij Hi Hj Hid.
  destruct (output_tags clock randomUUID model reads f) as (closed & ds & Hev).
  rewrite Hev in Hi, Hj.
  apply data_of_tag in Hi. destruct Hi as (ti & Hti & ->).
  apply data_of_tag in Hj. destruct Hj as (tj & Htj & ->).
  cbn [chunk ch_id ch_delta] in *.
  apply (fresh_id_inj randomUUID fresh) in Hid.
  assert (Hxi : ((fun t : nat * Delta * option jsstring => t.1.1) <$> all_tags closed ds) !! i
                = Some ti.1.1) by (rewrite list_lookup_fmap, Hti; reflexivity).
  assert (Hxj : ((fun t : nat * Delta * option jsstring => t.1.1) <$> all_tags closed ds) !! j
                = Some ti.1.1) by (rewrite list_lookup_fmap, Htj, Hid; reflexivity).
  rewrite all_tags_indices in Hxi, Hxj.
  assert (Hr0 : (fun t : nat * Delta * option jsstring => t.1.1) <$> role_tag ds = []
                \/ (fun t : nat * Delta * option jsstring => t.1.1) <$> role_tag ds = [0%nat])
    by (destruct ds; [left|right]; reflexivity).
  destruct (repeated_index _ _ Hr0 (indices_sorted closed ds) i j _ Hij Hxi Hxj)
    as (Hr & -> & ->).
  split; [reflexivity|]. split; [reflexivity|].
  destruct ds as [|d ds]; [discriminate|]. clear Hr.
  unfold all_tags in Hti, Htj. cbn [role_tag app] in Hti, Htj.
  cbn in Hti. injection Hti as <-. cbn [fst snd] in *.
  split; [reflexivity|].
  assert (Htj' : (content_tags 0 (d :: ds) ++ terminal_tag closed (d :: ds)) !! 0%nat
                 = Some tj) by exact Htj.
  clear Htj. apply lookup_app_Some in Htj'. destruct Htj' as [Htj | [Hlen Htj]].
  - unfold content_tags in Htj. rewrite list_lookup_fmap in Htj.
    destruct (tags 0 (d :: ds) !! 0%nat) as [p|]; [|discriminate].
    injection Htj as <-. eexists. reflexivity.
  - exfalso. destruct closed; cbn [terminal_tag] in Htj.
    + destruct (0 - length (content_tags 0 (d :: ds)))%nat as [|n];
        [|destruct n; discriminate].
      injection Htj as <-. cbn in Hid. discriminate.
    + rewrite lookup_nil in Htj. discriminate.
Qed.

(** Identifiers in unary: the k-th is k strokes. *)
Definition strokes (k : nat) : jsstring := repeat 49%N k.

Lemma strokes_inj (m n : nat) : strokes m = strokes n -> m = n.
Proof.
  intros H. apply (f_equal length) in H. unfold strokes in H.
  rewrite !repeat_length in H. exact H.
Qed.

Lemma distinct_ids_witness :
  0%nat = 0%nat /\ 1%nat = 1%nat
  /\ ch_delta (chunk (js "chatcmpl-") (ticking 0 / 1000) (js "m")
                 (DeltaRole (js "assistant")) None)
     = DeltaRole (js "assistant")
  /\ exists v : value,
       ch_delta (chunk (js "chatcmpl-") (ticking 0 / 1000) (js "m")
                   (DeltaContent (JStr (js "Hi"))) None)
       = DeltaContent v.
Proof.
  apply (distinct_ids ticking strokes (js "m") hi_there_reads None 0 1
           (chunk (js "chatcmpl-") (ticking 0 / 1000) (js "m")
              (DeltaRole (js "assistant")) None)
           (chunk (js "chatcmpl-") (ticking 0 / 1000) (js "m")
              (DeltaContent (JStr (js "Hi"))) None)).
  - exact strokes_inj.
  - lia.
  - vm_compute. reflexivity.
  - vm_compute. reflexivity.
  - reflexivity.
Defined.

(** ** Lines that do not decode *)

(** An event emitted before the end of the response: a chunk whose
    [finish_reason] is [null]. *)
Definition unfinished (e : Event) : Prop :=
  match e with
  | Data c => ch_finish_reason c = None
  | Done => False
  end.

Lemma body_events_unfinished (clock : nat -> Z) (randomUUID : nat -> jsstring)
    (model : jsstring) (ds : list value) :
  Forall unfinished (body_events clock randomUUID model ds).
Proof.
  unfold body_events. apply Forall_app. split.
  - destruct ds; repeat constructor.
  - generalize 0%nat. induction ds as [|d ds IH]; intros k; cbn [contents]; [constructor|].
    apply Forall_app. split; [|apply IH].
    unfold content_of. destruct (get d (js "response")) as [| |v]; try constructor.
    destruct (truthy v); repeat constructor.
Qed.

Lemma decode_malformed (line : jsstring) : Json.parse (payload line) = None -> decode line = None.
Proof. intros H. unfold decode. rewrite H. destruct (_ || _); reflexivity. Qed.

Lemma split_lines_line (line rest : jsstring) :
  indexOf line 10 = None -> split_lines (line ++ 10%N :: rest) = line :: split_lines rest.
Proof.
  intros H. rewrite split_lines_app_newline, (scan_no_newline line H). reflexivity.
Qed.

(** C8: a line whose payload [JSON.parse] rejects leaves the transcoder as
    it was; the output of a stream is the same with and without such a
    line, wherever the line stands and however the text is cut into chunks.
    Every upstream that ends is answered with events whose [finish_reason]
    is [null], then one terminal chunk with an empty delta and
    [finish_reason: "stop"], then the sentinel, and the output is closed.
    The output is errored exactly when a read of the upstream fails. *)
Theorem malformed_line_skipped
    (clock : nat -> Z) (randomUUID : nat -> jsstring) (model : jsstring) :
  (forall (bad : jsstring) (st : Transcoder),
     Json.parse (payload bad) = None ->
     processChunk clock randomUUID model bad st = st)
  /\ (forall (reads reads' : list jsstring) (before bad after : jsstring),
        Json.parse (payload bad) = None ->
        indexOf bad 10 = None ->
        before = [] \/ (exists pre : jsstring, before = pre ++ [10%N]) ->
        concat reads = before ++ bad ++ 10%N :: after ->
        concat reads' = before ++ after ->
        start clock randomUUID model {| chunks := reads; failure := None |}
        = start clock randomUUID model {| chunks := reads'; failure := None |})
  /\ (forall reads : list jsstring,
        exists (evs : list Event) (k : nat),
          start clock randomUUID model {| chunks := reads; failure := None |}
          = (evs ++ [Data (chunk (js "chatcmpl-" ++ randomUUID k) (clock k / 1000) model
                            DeltaEmpty (Some (js "stop")));
                     Done],
             Closed)
          /\ Forall unfinished evs)
  /\ (forall (reads : list jsstring) (f : option exn),
        snd (start clock randomUUID model {| chunks := reads; failure := f |})
        = match f with None => Closed | Some e => Errored e end).
Proof.
  split; [|split; [|split]].
  - intros bad st H. unfold processChunk. fold (payload bad). rewrite H.
    destruct (_ || _); reflexivity.
  - intros reads reads' before bad after Hbad Hnl Hbefore Htext Htext'.
    rewrite !start_render, Htext, Htext'. do 2 f_equal.
    destruct Hbefore as [-> | [pre ->]].
    + cbn [app]. rewrite (split_lines_line bad after Hnl), omap_step.
      rewrite (decode_malformed bad Hbad). reflexivity.
    + rewrite <- !app_assoc. cbn [app].
      rewrite (split_lines_app_newline pre (bad ++ 10%N :: after)).
      rewrite (split_lines_app_newline pre after).
      rewrite (split_lines_line bad after Hnl), !omap_app, !omap_step.
      rewrite (decode_malformed bad Hbad). reflexivity.
  - intros reads. rewrite start_render. unfold render.
    eexists _, _. split; [reflexivity|]. apply body_events_unfinished.
  - intros reads f. rewrite start_render. destruct f; reflexivity.
Qed.

(** The example with a line that is not JSON between its two lines. *)
Definition hi_oops_there : list jsstring :=
  [ jsq "data: {'response':'Hi'}" ++ [10%N] ++ jsq "data: {'respon";
    jsq "se': oops" ++ [10%N] ++ jsq "data: {'response':' there'}" ++ [10%N] ].

Definition hi_there : list jsstring :=
  [ jsq "data: {'response':'Hi'}" ++ [10%N] ++ jsq "data: {'response':' there'}" ++ [10%N] ].

Lemma malformed_line_skipped_witness :
  start ticking numbered (js "m") {| chunks := hi_oops_there; failure := None |}
  = start ticking numbered (js "m") {| chunks := hi_there; failure := None |}.
Proof.
  destruct (malformed_line_skipped ticking numbered (js "m")) as (_ & Hskip & _).
  apply (Hskip hi_oops_there hi_there
           (jsq "data: {'response':'Hi'}" ++ [10%N])
           (jsq "data: {'respon" ++ jsq "se': oops")
           (jsq "data: {'response':' there'}" ++ [10%N])).
  - vm_compute. reflexivity.
  - vm_compute. reflexivity.
  - right. exists (jsq "data: {'response':'Hi'}"). reflexivity.
  - vm_compute. reflexivity.
  - vm_compute. reflexivity.
Defined.

(** * Further properties *)

(** ** The hardening headers *)

(** The names and values that [addSecurityHeaders] sets. *)
Definition hardening : list (string * string) :=
  [ ("Strict-Transport-Security", "max-age=31536000; includeSubDomains");
    ("X-Content-Type-Options", "nosniff");
    ("X-Frame-Options", "DENY");
    ("X-XSS-Protection", "1; mode=block");
    ("Referrer-Policy", "strict-origin-when-cross-origin");
    ("Content-Security-Policy", "default-src 'none'; frame-ancestors 'none'");
    ("Permissions-Policy",
     "accelerometer=(), camera=(), geolocation=(), gyroscope=(), magnetometer=(), microphone=(), payment=(), usb=()")
  ]%string.

(** The value [addSecurityHeaders] gives the header kept under the
    lower-case name [key], if it sets it. *)
Definition hardened_key (key : jsstring) : option jsstring :=
  (fun p : string * string => js p.2)
    <$> List.find (fun p : string * string => bool_decide (lowercase (js p.1) = key))
          hardening.

(** The value [addSecurityHeaders] gives the header [name], written in
    any letter case, if it sets it. *)
Definition hardened (name : jsstring) : option jsstring :=
  hardened_key (lowercase name).

Lemma headers_lookup_insert (h : Headers) (n m v : jsstring) :
  <[n := v]> h !! m = if decide (lowercase n = lowercase m) then Some v else h !! m.
Proof.
  change (<[n := v]> h !! m)
    with (<[lowercase n := v]> (header_map h) !! lowercase m).
  apply lookup_insert.
Qed.

Lemma headers_lookup_insert_eq (h : Headers) (n m v : jsstring) :
  lowercase n = lowercase m -> <[n := v]> h !! m = Some v.
Proof. intros H. rewrite headers_lookup_insert, decide_True by exact H. reflexivity. Qed.

Lemma headers_lookup_insert_ne (h : Headers) (n m v : jsstring) :
  lowercase n <> lowercase m -> <[n := v]> h !! m = h !! m.
Proof. intros H. rewrite headers_lookup_insert, decide_False by exact H. reflexivity. Qed.

Lemma header_map_addSecurityHeaders (h : Headers) (key : jsstring) :
  header_map (addSecurityHeaders h) !! key
  = match hardened_key key with Some v => Some v | None => header_map h !! key end.
Proof.
  unfold addSecurityHeaders, set, insert, headers_insert. cbn [header_map].
  repeat (rewrite lookup_insert; case_decide; [subst key; vm_compute; reflexivity|]).
  unfold hardened_key, hardening. cbn [List.find fst snd].
  repeat (case_bool_decide; [congruence|]). reflexivity.
Qed.

Lemma lookup_addSecurityHeaders (h : Headers) (name : jsstring) :
  addSecurityHeaders h !! name
  = match hardened name with Some v => Some v | None => h !! name end.
Proof. exact (header_map_addSecurityHeaders h (lowercase name)). Qed.

(** X1: whatever the headers of a response, [addSecurityHeaders] gives
    each of the seven hardening headers its fixed value, replacing a value
    the header had under that name in any letter case, and leaves every
    header of another name as it was, names being compared without regard
    to letter case; stamping twice is the same as stamping once. *)
Theorem addSecurityHeaders_idempotent (h : Headers) :
  addSecurityHeaders (addSecurityHeaders h) = addSecurityHeaders h
  /\ (forall (p : string * string) (name : jsstring),
        In p hardening -> lowercase name = lowercase (js p.1) ->
        addSecurityHeaders h !! name = Some (js p.2))
  /\ (forall name : jsstring,
        (forall p : string * string,
           In p hardening -> lowercase (js p.1) <> lowercase name) ->
        addSecurityHeaders h !! name = h !! name).
Proof.
  split; [|split].
  - assert (Hmap : header_map (addSecurityHeaders (addSecurityHeaders h))
                   = header_map (addSecurityHeaders h)).
    { apply map_eq. intros key. rewrite !header_map_addSecurityHeaders.
      destruct (hardened_key key); reflexivity. }
    destruct (addSecurityHeaders (addSecurityHeaders h)) as [m2].
    destruct (addSecurityHeaders h) as [m1]. cbn [header_map] in Hmap.
    rewrite Hmap. reflexivity.
  - intros p name Hp Hname. rewrite lookup_addSecurityHeaders.
    unfold hardened. rewrite Hname.
    cbn [In hardening] in Hp.
    repeat (destruct Hp as [<- | Hp]; [vm_compute; reflexivity|]). destruct Hp.
  - intros name Hname. rewrite lookup_addSecurityHeaders.
    unfold hardened, hardened_key.
    destruct (List.find _ hardening) as [p|] eqn:Hf; [|reflexivity].
    apply find_some in Hf. destruct Hf as [Hin Heq].
    apply bool_decide_eq_true in Heq. destruct (Hname p Hin Heq).
Qed.

(** ** The authenticator's pattern *)

Section BearerPattern.

Local Close Scope Z_scope.

Lemma starts_with_ci_split (p s : jsstring) :
  starts_with_ci s p = true ->
  map fold_case (take (length p) s) = map fold_case p /\ length p <= length s.
Proof.
  revert s. induction p as [|c p IH]; intros s; cbn [starts_with_ci length].
  - intros _. split; [reflexivity|lia].
  - destruct s as [|d s]; [discriminate|]. intros H. apply andb_true_iff in H.
    destruct H as [Hc Hp]. apply N.eqb_eq in Hc. destruct (IH s Hp) as [Ht Hl].
    cbn [firstn map length]. split; [|lia]. rewrite Ht. congruence.
Qed.

Lemma starts_with_ci_prefix (b p r : jsstring) :
  map fold_case b = map fold_case p -> starts_with_ci (b ++ r) p = true.
Proof.
  revert b. induction p as [|c p IH]; intros b H; [reflexivity|].
  destruct b as [|d b]; [discriminate|]. cbn [map] in H. injection H as Hd Hb.
  cbn [app starts_with_ci]. rewrite Hd, N.eqb_refl. apply IH. exact Hb.
Qed.

Lemma spaces_take (s : jsstring) (j : nat) :
  j <= spaces s -> forallb is_space (take j s) = true /\ j <= length s.
Proof.
  revert j. induction s as [|c r IH]; intros j; cbn [spaces].
  - intros Hj. assert (j = 0) by lia. subst. split; [reflexivity|cbn; lia].
  - destruct j as [|j]; [intros _; split; [reflexivity|lia]|].
    destruct (is_space c) eqn:Hc; [|lia]. intros Hj.
    destruct (IH j ltac:(lia)) as [Ht Hl]. cbn [firstn forallb length].
    rewrite Hc, Ht. split; [reflexivity|lia].
Qed.

Lemma spaces_app (ws t : jsstring) :
  forallb is_space ws = true -> length ws <= spaces (ws ++ t).
Proof.
  induction ws as [|c ws IH]; cbn [forallb app spaces length]; [lia|].
  intros H. apply andb_true_iff in H. destruct H as [Hc Hws]. rewrite Hc.
  specialize (IH Hws). lia.
Qed.

Lemma spaces_app_exact (ws t : jsstring) (c : N) :
  forallb is_space ws = true -> is_space c = false ->
  spaces (ws ++ c :: t) = length ws.
Proof.
  induction ws as [|d ws IH]; cbn [forallb app spaces length].
  - intros _ Hc. rewrite Hc. reflexivity.
  - intros H Hc. apply andb_true_iff in H. destruct H as [Hd Hws]. rewrite Hd.
    rewrite (IH Hws Hc). reflexivity.
Qed.

Lemma rest_of_line_Some (s t : jsstring) :
  rest_of_line s = Some t ->
  t = s /\ s <> [] /\ forallb (fun c => negb (is_line_terminator c)) s = true.
Proof.
  unfold rest_of_line. destruct s as [|c r]; [discriminate|].
  destruct (forallb _ (c :: r)) eqn:H; [|discriminate].
  intros [= <-]. split; [reflexivity|split; [discriminate|reflexivity]].
Qed.

Lemma spaces_then_rest_Some (k : nat) (s t : jsstring) :
  spaces_then_rest k s = Some t ->
  exists j : nat, 1 <= j <= k /\ rest_of_line (drop j s) = Some t.
Proof.
  induction k as [|k IH]; cbn [spaces_then_rest]; [discriminate|].
  destruct (rest_of_line (drop (S k) s)) as [t'|] eqn:Hr.
  - intros [= <-]. exists (S k). split; [lia|exact Hr].
  - intros H. destruct (IH H) as (j & Hj & Hrj). exists j. split; [lia|exact Hrj].
Qed.

Lemma spaces_then_rest_is_Some (k : nat) (s : jsstring) (j : nat) :
  1 <= j <= k -> is_Some (rest_of_line (drop j s)) -> is_Some (spaces_then_rest k s).
Proof.
  induction k as [|k IH]; intros Hj Hr; [lia|]. cbn [spaces_then_rest].
  destruct (rest_of_line (drop (S k) s)) as [t'|] eqn:Hk; [eexists; reflexivity|].
  apply IH; [|exact Hr].
  destruct (decide (j = S k)) as [->|]; [|lia].
  rewrite Hk in Hr. destruct Hr as [? Hr]. discriminate.
Qed.

(** X2: the pattern of the authenticator. A header matches exactly when
    it is the word [Bearer] in any letter case, then white space, then a
    token that is not empty and has no line terminator; the captured token
    is never empty; and when the token does not start with white space, it
    is what is captured. *)
Theorem match_bearer_pattern (h : jsstring) :
  (forall t : jsstring,
     match_bearer h = Some t ->
     exists b ws : jsstring,
       h = b ++ ws ++ t
       /\ map fold_case b = js "BEARER"
       /\ ws <> [] /\ forallb is_space ws = true
       /\ t <> [] /\ forallb (fun c => negb (is_line_terminator c)) t = true)
  /\ (forall b ws t : jsstring,
        h = b ++ ws ++ t ->
        map fold_case b = js "BEARER" ->
        ws <> [] -> forallb is_space ws = true ->
        t <> [] -> forallb (fun c => negb (is_line_terminator c)) t = true ->
        is_Some (match_bearer h)
        /\ (forall (c : N) (t' : jsstring),
              t = c :: t' -> is_space c = false -> match_bearer h = Some t)).
Proof.
  split.
  - intros t. unfold match_bearer.
    destruct (starts_with_ci h (js "Bearer")) eqn:Hb; [|discriminate].
    apply starts_with_ci_split in Hb. destruct Hb as [Hb Hlen].
    intros H. apply spaces_then_rest_Some in H. destruct H as (j & Hj & Hr).
    apply rest_of_line_Some in Hr. destruct Hr as (Ht & Hne & Hline).
    destruct (spaces_take (drop 6 h) j ltac:(lia)) as [Hws Hjl].
    exists (take 6 h), (take j (drop 6 h)). rewrite <- Ht in Hne, Hline.
    split; [rewrite Ht, take_drop, take_drop; reflexivity|].
    split; [exact Hb|]. split; [|split; [exact Hws|split; assumption]].
    intros Hnil. apply (f_equal length) in Hnil. rewrite length_take in Hnil.
    cbn [length] in Hnil. lia.
  - intros b ws t -> Hb Hws Hsp Ht Hline.
    assert (Hlen : length b = 6).
    { apply (f_equal length) in Hb. rewrite length_map in Hb. exact Hb. }
    assert (Hdrop : drop 6 (b ++ ws ++ t) = ws ++ t).
    { rewrite <- Hlen. apply drop_app_length. }
    assert (Hrest : rest_of_line t = Some t).
    { unfold rest_of_line. destruct t; [congruence|]. rewrite Hline. reflexivity. }
    assert (Hstart : starts_with_ci (b ++ ws ++ t) (js "Bearer") = true).
    { apply starts_with_ci_prefix. rewrite Hb. reflexivity. }
    unfold match_bearer. rewrite Hstart, Hdrop. split.
    + apply (spaces_then_rest_is_Some _ _ (length ws)).
      * pose proof (spaces_app ws t Hsp). destruct ws; [congruence|]. cbn [length] in *. lia.
      * rewrite drop_app_length, Hrest. eexists. reflexivity.
    + intros c t' -> Hc. rewrite (spaces_app_exact ws t' c Hsp Hc).
      destruct ws as [|w ws']; [congruence|]. cbn [length spaces_then_rest].
      change (S (length ws')) with (length (w :: ws')).
      rewrite drop_app_length, Hrest. reflexivity.
Qed.

Lemma match_bearer_pattern_witness :
  is_Some (match_bearer (js "BEARER" ++ [32%N; 9%N] ++ js "sk-1"))
  /\ (forall (c : N) (t' : jsstring),
        js "sk-1" = c :: t' -> is_space c = false ->
        match_bearer (js "BEARER" ++ [32%N; 9%N] ++ js "sk-1") = Some (js "sk-1")).
Proof.
  destruct (match_bearer_pattern (js "BEARER" ++ [32%N; 9%N] ++ js "sk-1")) as [_ H].
  apply (H (js "BEARER") [32%N; 9%N] (js "sk-1")).
  - reflexivity.
  - vm_compute. reflexivity.
  - discriminate.
  - vm_compute. reflexivity.
  - discriminate.
  - vm_compute. reflexivity.
Defined.

Lemma remove_first_length (p s : jsstring) :
  length s - length p <= length (remove_first p s).
Proof.
  induction s as [|c r IH]; rewrite remove_first_unfold.
  - destruct (startsWith [] p); cbn; lia.
  - destruct (startsWith (c :: r) p); [rewrite length_drop; lia|].
    cbn [length]. lia.
Qed.

(** X3: a header that the authenticator accepts always gives the rate
    limiter a credential that is not empty, so that after the authenticator
    the rate limiter never answers that the key is missing. *)
Theorem accepted_header_has_credential
    (authorization : option jsstring) (key_store_fails : bool) :
  verifyApiKey authorization key_store_fails = None ->
  (exists k : jsstring, apiKey_of authorization = Some k /\ k <> [])
  /\ (forall (c : Z) (kv : KV),
        fst (checkRateLimit authorization c kv) <> Reply missing_key).
Proof.
  intros Hv.
  assert (Hk : exists k : jsstring, apiKey_of authorization = Some k /\ k <> []).
  { unfold verifyApiKey in Hv. destruct authorization as [[|c0 h0]|]; try discriminate.
    destruct (match_bearer (c0 :: h0)) as [t|] eqn:Hm; [|discriminate].
    destruct (match_bearer_pattern (c0 :: h0)) as [Hs _].
    destruct (Hs t Hm) as (b & ws & Hh & Hb & Hws & _ & Ht & _).
    exists (remove_first (js "Bearer ") (c0 :: h0)). split; [reflexivity|].
    pose proof (remove_first_length (js "Bearer ") (c0 :: h0)) as Hl.
    rewrite Hh in Hl. rewrite !length_app in Hl.
    apply (f_equal length) in Hb. rewrite length_map in Hb.
    change (length (js "BEARER")) with 6 in Hb.
    change (length (js "Bearer ")) with 7 in Hl.
    destruct ws; [congruence|]. destruct t; [congruence|]. cbn [length] in Hl.
    intros Hnil. rewrite Hh in Hnil. rewrite Hnil in Hl. cbn [length] in Hl. lia. }
  split; [exact Hk|].
  destruct Hk as (k & Hk & Hne). intros c kv. unfold checkRateLimit. rewrite Hk.
  destruct k as [|a k]; [congruence|].
  assert (Hdiff : forall r : Response,
            match body r with
            | ErrorBody e => err_message e <> js "Missing API key for rate limiting"
            | _ => True
            end -> Reply r <> Reply missing_key).
  { intros r Hr [= ->]. apply Hr. reflexivity. }
  destruct (kv_get kv _ _) as [d|e]; [|apply Hdiff; vm_compute; discriminate].
  match goal with |- context [if ?g then _ else _] => destruct g end.
  - apply Hdiff. vm_compute. discriminate.
  - destruct (kv_put _ _ _ _ _); cbn [fst]; [discriminate|].
    apply Hdiff. vm_compute. discriminate.
Qed.

Lemma accepted_header_has_credential_witness :
  (exists k : jsstring, apiKey_of (Some (js "bearer" ++ 9%N :: js "abc")) = Some k /\ k <> [])
  /\ (forall (c : Z) (kv : KV),
        fst (checkRateLimit (Some (js "bearer" ++ 9%N :: js "abc")) c kv) <> Reply missing_key).
Proof.
  apply (accepted_header_has_credential (Some (js "bearer" ++ 9%N :: js "abc")) false).
  vm_compute. reflexivity.
Defined.

End BearerPattern.

(** ** One credential and the others *)

(** X4: a call of the rate limiter reads and writes the record of its own
    credential only: the record of every other key is after the call what
    it was before, and two namespaces that hold the same record for the
    credential give the same answer. *)
Theorem rate_limit_isolation
    (authorization : option jsstring) (c : Z) (kv kv2 : KV) :
  (forall key : jsstring,
     (forall k : jsstring, apiKey_of authorization = Some k -> key <> js "ratelimit:" ++ k) ->
     entries (snd (checkRateLimit authorization c kv)) !! key = entries kv !! key)
  /\ (reachable kv = reachable kv2 ->
      (forall k : jsstring,
         apiKey_of authorization = Some k ->
         entries kv !! (js "ratelimit:" ++ k) = entries kv2 !! (js "ratelimit:" ++ k)) ->
      fst (checkRateLimit authorization c kv) = fst (checkRateLimit authorization c kv2)).
Proof.
  split.
  - intros key Hkey. unfold checkRateLimit.
    destruct (apiKey_of authorization) as [[|a k]|]; try reflexivity.
    specialize (Hkey (a :: k) eq_refl).
    unfold kv_get, kv_put. destruct (reachable kv); [|reflexivity].
    match goal with |- context [RATE_LIMIT <=? ?x] => destruct (RATE_LIMIT <=? x) end;
      [reflexivity|].
    cbn [snd entries]. apply lookup_insert_ne. congruence.
  - intros Hr Hsame. unfold checkRateLimit.
    destruct (apiKey_of authorization) as [[|a k]|]; try reflexivity.
    specialize (Hsame (a :: k) eq_refl).
    unfold kv_get, kv_put. rewrite <- Hr, <- Hsame. destruct (reachable kv); [|reflexivity].
    match goal with |- context [RATE_LIMIT <=? ?x] => destruct (RATE_LIMIT <=? x) end;
      reflexivity.
Qed.

(** Every stored count is between 1 and the limit. *)
Definition counts_in_range (kv : KV) : Prop :=
  forall (key : jsstring) (d : RateLimitData) (expires : Z),
    entries kv !! key = Some (d, expires) -> 1 <= count d <= RATE_LIMIT.

(** X5: the records the rate limiter writes keep every stored count between
    1 and 100. On a namespace with that property, a call gives one of four
    answers: the request is allowed, with [remaining] between 0 and 99,
    [total = 100] and a [reset] later than the time of the request; or it is
    over the limit, with a [reset] later than the time of the request; or
    the key is missing; or the namespace failed. *)
Theorem rate_limit_answers (authorization : option jsstring) (c : Z) (kv : KV) :
  counts_in_range kv ->
  counts_in_range (snd (checkRateLimit authorization c kv))
  /\ match fst (checkRateLimit authorization c kv) with
     | Info i =>
         0 <= remaining i <= 99 /\ total i = 100
         /\ c / 1000 < reset i
     | Reply r =>
         (exists rs : Z, r = exceeded rs /\ c / 1000 < rs /\ reachable kv = true)
         \/ (r = missing_key /\ (apiKey_of authorization = None
                                 \/ apiKey_of authorization = Some []))
         \/ (r = server_error /\ reachable kv = false)
     end.
Proof.
  intros Hinv. unfold checkRateLimit.
  destruct (apiKey_of authorization) as [[|a k]|];
    try (split; [exact Hinv|right; left; split; [reflexivity|auto]]).
  unfold kv_get, kv_put. destruct (reachable kv) eqn:Hr;
    [|split; [exact Hinv|right; right; split; reflexivity]].
  set (key := js "ratelimit:" ++ a :: k).
  set (now := c / 1000).
  assert (Hdata : forall d : RateLimitData,
            match entries kv !! key with
            | Some (d0, expires) => if now <? expires then Some d0 else None
            | None => None
            end = Some d -> 1 <= count d <= RATE_LIMIT).
  { intros d. destruct (entries kv !! key) as [[d0 ex]|] eqn:Hl; [|discriminate].
    destruct (now <? ex); [|discriminate]. intros [= <-]. exact (Hinv _ _ _ Hl). }
  destruct (match entries kv !! key with Some _ => _ | None => _ end) as [d|].
  - specialize (Hdata d eq_refl). unfold RATE_LIMIT, WINDOW_SIZE in *.
    destruct (60 * 60 <=? now - timestamp d) eqn:Hw; cbn [count timestamp].
    + change (100 <=? 0) with false. cbn iota. split.
      * intros key' d' ex'. cbn [snd entries]. rewrite lookup_insert.
        case_decide; [intros [= <- _]; cbn; unfold RATE_LIMIT; lia|apply Hinv].
      * cbn [fst remaining total reset]. lia.
    + apply Z.leb_gt in Hw. destruct (100 <=? count d) eqn:Hc.
      * split; [exact Hinv|]. left. eexists. split; [reflexivity|]. split; [lia|reflexivity].
      * apply Z.leb_gt in Hc. split.
        -- intros key' d' ex'. cbn [snd entries]. rewrite lookup_insert.
           case_decide; [intros [= <- _]; cbn; unfold RATE_LIMIT; lia|apply Hinv].
        -- cbn [fst remaining total reset]. lia.
  - unfold RATE_LIMIT, WINDOW_SIZE. cbn [count timestamp]. change (100 <=? 0) with false.
    cbn iota. split.
    + intros key' d' ex'. cbn [snd entries]. rewrite lookup_insert.
      case_decide; [intros [= <- _]; cbn; unfold RATE_LIMIT; lia|apply Hinv].
    + cbn [fst remaining total reset]. lia.
Qed.

Lemma rate_limit_answers_witness :
  counts_in_range (snd (checkRateLimit (Some (js "Bearer k")) 5000 empty_kv))
  /\ match fst (checkRateLimit (Some (js "Bearer k")) 5000 empty_kv) with
     | Info i =>
         0 <= remaining i <= 99 /\ total i = 100
         /\ 5000 / 1000 < reset i
     | Reply r =>
         (exists rs : Z, r = exceeded rs /\ 5000 / 1000 < rs /\ reachable empty_kv = true)
         \/ (r = missing_key /\ (apiKey_of (Some (js "Bearer k")) = None
                                 \/ apiKey_of (Some (js "Bearer k")) = Some []))
         \/ (r = server_error /\ reachable empty_kv = false)
     end.
Proof.
  apply (rate_limit_answers (Some (js "Bearer k")) 5000 empty_kv).
  intros key d expires H. vm_compute in H. discriminate.
Defined.

(** ** The token estimate *)

Lemma calculateTokens_spec (t : jsstring) :
  4 * (calculateTokens t - 1) < Z.of_nat (length t) <= 4 * calculateTokens t.
Proof. apply ceil_div_4. reflexivity. Qed.

(** X6: the estimate of a text is 0 exactly for the empty text, it never
    decreases when the text gets longer, and the estimate of a
    concatenation is the sum of the estimates of its parts or one less. *)
Theorem calculateTokens_monotone :
  (forall t : jsstring, calculateTokens t = 0 <-> t = [])
  /\ (forall a b : jsstring,
        (length a <= length b)%nat -> calculateTokens a <= calculateTokens b)
  /\ (forall a b : jsstring,
        calculateTokens a + calculateTokens b - 1 <= calculateTokens (a ++ b)
        <= calculateTokens a + calculateTokens b).
Proof.
  split; [|split].
  - intros t. pose proof (calculateTokens_spec t). split.
    + intros H0. rewrite H0 in H. destruct t; [reflexivity|cbn [length] in H; lia].
    + intros ->. reflexivity.
  - intros a b Hab. pose proof (calculateTokens_spec a). pose proof (calculateTokens_spec b).
    lia.
  - intros a b. pose proof (calculateTokens_spec a). pose proof (calculateTokens_spec b).
    pose proof (calculateTokens_spec (a ++ b)) as Hab. rewrite length_app in Hab. lia.
Qed.

Lemma prompt_tokens_bounds (ms : list ChatMessage) :
  Zsum (map (fun m => Z.of_nat (length (content m))) ms)
  <= 4 * Zsum (map (fun m => calculateTokens (content m)) ms)
  <= Zsum (map (fun m => Z.of_nat (length (content m))) ms) + 3 * Z.of_nat (length ms).
Proof.
  induction ms as [|m ms IH]; cbn [map Zsum foldr length]; [lia|].
  fold (Zsum (map (fun m => Z.of_nat (length (content m))) ms)).
  fold (Zsum (map (fun m => calculateTokens (content m)) ms)).
  pose proof (calculateTokens_spec (content m)). lia.
Qed.

(** X7: the usage of a completion never counts fewer prompt tokens than a
    quarter of the characters of the prompt, and at most three quarters of
    a token more per message; the total is the sum of the two counts. *)
Theorem usage_bounds (b : ChatCompletionRequest) (text : jsstring) :
  prompt_length b <= 4 * prompt_tokens (usage_of b text)
  /\ 4 * prompt_tokens (usage_of b text)
     <= prompt_length b + 3 * Z.of_nat (length (messages b))
  /\ Z.of_nat (length text) <= 4 * completion_tokens (usage_of b text)
     <= Z.of_nat (length text) + 3
  /\ total_tokens (usage_of b text)
     = prompt_tokens (usage_of b text) + completion_tokens (usage_of b text).
Proof.
  unfold usage_of, prompt_length. cbn [prompt_tokens completion_tokens total_tokens].
  rewrite fold_left_tokens. pose proof (prompt_tokens_bounds (messages b)).
  pose proof (calculateTokens_spec text). lia.
Qed.

(** ** What the validator lets through *)

(** X8: on a request whose fields have their declared types, the validator
    makes its checks in a fixed order, model, then messages present, then
    each message in sequence (its role, then its content), then
    temperature, then max_tokens, and answers with the error of the first
    check that fails: 400 [invalid_request_error] with the message and the
    parameter of that check. *)
Theorem validation_order (b : ChatCompletionRequest) :
  validateRequestBody (body_value b)
  = Return ((fun e : jsstring * string =>
               createErrorResponse e.1 (js "invalid_request_error") (Some (js e.2)) None 400)
              <$> first_failure (typed_checks b)).
Proof. exact (validate_typed b). Qed.

(** X9: a request whose fields have their declared types is declared valid
    exactly when its model is not empty, it has a message, every message
    has one of the three roles and a content that is not empty, the
    temperature, if given, is between 0 and 2, and max_tokens, if given, is
    at least 1. The engine's filter then keeps every message. *)
Theorem validation_passes (b : ChatCompletionRequest) :
  (validateRequestBody (body_value b) = Return None
   <-> model b <> []
       /\ messages b <> []
       /\ Forall (fun m => valid_role (JStr (role m)) = true /\ content m <> []) (messages b)
       /\ match temperature b with
          | Some t => num_ltb t (of_Z 0) = false /\ num_ltb (of_Z 2) t = false
          | None => True
          end
       /\ match max_tokens b with
          | Some k => num_ltb k (of_Z 1) = false
          | None => True
          end)
  /\ (validateRequestBody (body_value b) = Return None ->
      filter (fun m => valid_message m = true) (messages b) = messages b).
Proof.
  split; [exact (valid_body_iff b)|].
  intros Hv. exact (proj1 (valid_body_messages b Hv)).
Qed.

Lemma validation_passes_witness :
  filter (fun m => valid_message m = true) (messages prompt_40) = messages prompt_40.
Proof.
  destruct (validation_passes prompt_40) as [_ H]. apply H. vm_compute. reflexivity.
Defined.

(** ** The validator on any JSON value *)

Lemma check_messages_outcomes (ms : list value) :
  forall index : nat,
    match check_messages index ms with
    | Return None => ~ In JNull ms
    | Return (Some r) =>
        exists (message : jsstring) (k : nat),
          r = invalid_request message "messages"
          /\ (index <= k < index + length ms)%nat
          /\ (message = invalid_role_message k \/ message = empty_content_message k)
    | Throw e => In JNull ms
    end.
Proof.
  induction ms as [|m ms IH]; intros index; [intros []|].
  assert (Hrole : exists (message : jsstring) (k : nat),
            invalid_request (invalid_role_message index) "messages"
            = invalid_request message "messages"
            /\ (index <= k < index + length (m :: ms))%nat
            /\ (message = invalid_role_message k \/ message = empty_content_message k)).
  { eexists _, index. split; [reflexivity|]. split; [cbn [length]; lia|left; reflexivity]. }
  assert (Hcontent : exists (message : jsstring) (k : nat),
            invalid_request (empty_content_message index) "messages"
            = invalid_request message "messages"
            /\ (index <= k < index + length (m :: ms))%nat
            /\ (message = invalid_role_message k \/ message = empty_content_message k)).
  { eexists _, index. split; [reflexivity|]. split; [cbn [length]; lia|right; reflexivity]. }
  destruct m as [| b | n | s | xs | members];
    cbn [check_messages get prop_truthy negb orb]; try exact Hrole; [left; reflexivity|].
  destruct (lookup_member (js "content") members) as [c|];
    (destruct (lookup_member (js "role") members) as [r|];
     cbn [prop_truthy negb orb]; [|exact Hrole]);
    (destruct (negb (truthy r) || negb (valid_role r)); [exact Hrole|]);
    [destruct (negb (truthy c)); [exact Hcontent|]|exact Hcontent].
  specialize (IH (S index)). destruct (check_messages (S index) ms) as [[r'|]|e].
  - destruct IH as (msg & k & Hr & Hk & Hm). exists msg, k.
    split; [exact Hr|]. split; [cbn [length]; lia|exact Hm].
  - intros [H|H]; [discriminate|auto].
  - right. exact IH.
Qed.

(** X10: on any JSON value the validator either declares the body valid,
    or answers 400 [invalid_request_error] naming one of the five
    parameters, or throws; it throws only on a body that is [null] or whose
    message list has a [null] element, and a body it declares valid has a
    message list that is not empty and has no [null] element. *)
Theorem validator_outcomes (body : value) :
  match validateRequestBody body with
  | Return None =>
      exists ms : list value,
        get body (js "messages") = Val (JArr ms) /\ ms <> [] /\ ~ In JNull ms
  | Return (Some r) =>
      exists (message : jsstring) (param : string),
        r = createErrorResponse message (js "invalid_request_error") (Some (js param)) None 400
        /\ status r = 400
        /\ In param ["model"; "messages"; "temperature"; "max_tokens"; "stream"]%string
  | Throw e =>
      body = JNull
      \/ exists ms : list value, get body (js "messages") = Val (JArr ms) /\ In JNull ms
  end.
Proof.
  assert (Hbad : forall (message : jsstring) (param : string),
            In param ["model"; "messages"; "temperature"; "max_tokens"; "stream"]%string ->
            exists (message' : jsstring) (param' : string),
              invalid_request message param
              = createErrorResponse message' (js "invalid_request_error")
                  (Some (js param')) None 400
              /\ status (invalid_request message param) = 400
              /\ In param' ["model"; "messages"; "temperature"; "max_tokens"; "stream"]%string).
  { intros message param Hp. exists message, param. repeat split. exact Hp. }
  unfold validateRequestBody.
  destruct body as [| b | n | s | xs | members];
    cbn [get prop_truthy negb]; try (apply Hbad; cbn; auto); [left; reflexivity|].
  destruct (lookup_member (js "model") members) as [model|]; cbn [prop_truthy negb];
    [|apply Hbad; cbn; auto].
  destruct (truthy model); cbn [negb]; [|apply Hbad; cbn; auto].
  destruct (lookup_member (js "messages") members) as [[| | | | [|m ms] |]|];
    try (apply Hbad; cbn; auto).
  pose proof (check_messages_outcomes (m :: ms) 0) as Hc.
  destruct (check_messages 0 (m :: ms)) as [[r|]|e].
  - destruct Hc as (msg & k & -> & _ & _). apply Hbad; cbn; auto.
  - unfold check_temperature, check_max_tokens, check_stream. cbn [get].
    destruct (lookup_member (js "temperature") members) as [t|];
      [destruct (temperature_ok t); [|apply Hbad; cbn; auto]|];
      (destruct (lookup_member (js "max_tokens") members) as [k|];
       [destruct (max_tokens_ok k); [|apply Hbad; cbn; auto]|]);
      (destruct (lookup_member (js "stream") members) as [st|];
       [destruct (is_boolean st); [|apply Hbad; cbn; auto 10]|]);
      (exists (m :: ms); split; [reflexivity|]; split; [discriminate|exact Hc]).
  - right. exists (m :: ms). split; [reflexivity|exact Hc].
Qed.

(** ** The defaults of the engine *)




(** ** The catalogue *)

(** X12: [getModelById] gives the first entry of the catalogue with the
    given id, and nothing exactly when no entry has it. The engine looks the
    model up in the same way: it fails with [Model <id> not found] when
    there is no such entry, and when there are several it is the first
    whose chat capability decides. *)
Theorem getModelById_first
    (models : list AIModel) (run : jsstring -> RunOptions -> outcome AiReply)
    (params : ChatCompletionRequest) :
  match getModelById models (model params) with
  | Some m =>
      exists before after : list AIModel,
        models = before ++ m :: after
        /\ id m = model params
        /\ Forall (fun m' => id m' <> model params) before
        /\ (supports_chat m = false ->
            generateChatCompletion models run params
            = Throw (Error (js "Model " ++ model params
                              ++ js " does not support chat completions")))
  | None =>
      Forall (fun m' => id m' <> model params) models
      /\ generateChatCompletion models run params
         = Throw (Error (js "Model " ++ model params ++ js " not found"))
  end.
Proof.
  assert (Hfind : forall ms : list AIModel,
            match List.find (fun m => str_eqb (id m) (model params)) ms with
            | Some m =>
                exists before after : list AIModel,
                  ms = before ++ m :: after /\ id m = model params
                  /\ Forall (fun m' => id m' <> model params) before
            | None => Forall (fun m' => id m' <> model params) ms
            end).
  { induction ms as [|m ms IH]; cbn [List.find]; [constructor|].
    unfold str_eqb at 1. case_bool_decide as Hm.
    - exists [], ms. repeat split; [exact Hm|constructor].
    - destruct (List.find _ ms) as [m'|].
      + destruct IH as (before & after & -> & Hid & Hb).
        exists (m :: before), after. repeat split; [exact Hid|constructor; assumption].
      + constructor; assumption. }
  specialize (Hfind models). unfold getModelById.
  unfold generateChatCompletion, find_model.
  destruct (List.find _ models) as [m|].
  - destruct Hfind as (before & after & Hm & Hid & Hb). exists before, after.
    repeat split; try assumption. intros ->. reflexivity.
  - split; [exact Hfind|reflexivity].
Qed.

(** ** The transcoder and the text it reads *)

Lemma scan_app_newline (a b : jsstring) :
  scan (a ++ 10%N :: b) = (fst (scan a) ++ snd (scan a) :: fst (scan b), snd (scan b)).
Proof.
  rewrite scan_app.
  pose proof (scan_trailing a) as Ht. destruct (scan a) as [la ta]. cbn [fst snd] in *.
  rewrite (scan_newline (ta ++ 10%N :: b) (length ta)).
  - rewrite take_app_length.
    replace (drop (S (length ta)) (ta ++ 10%N :: b)) with b; [reflexivity|].
    replace (ta ++ 10%N :: b) with ((ta ++ [10%N]) ++ b)
      by (rewrite <- app_assoc; reflexivity).
    rewrite drop_app_length'; [reflexivity|]. rewrite length_app. cbn. lia.
  - clear -Ht. induction ta as [|c r IH]; [reflexivity|].
    cbn [indexOf app] in *. destruct (N.eqb c 10); [discriminate|].
    destruct (indexOf r 10); [discriminate|]. rewrite IH by reflexivity. reflexivity.
Qed.

Lemma body_events_app (clock : nat -> Z) (randomUUID : nat -> jsstring) (model : jsstring)
    (a b : list value) :
  exists rest : list Event,
    body_events clock randomUUID model (a ++ b)
    = body_events clock randomUUID model a ++ rest.
Proof.
  destruct a as [|d a].
  - exists (body_events clock randomUUID model b). reflexivity.
  - exists (contents clock randomUUID model (0 + length (d :: a)) b).
    unfold body_events. rewrite contents_app, <- app_assoc. reflexivity.
Qed.

(** X14: when a read of the upstream fails, the output is errored with the
    exception of the read. What was enqueued before is a beginning of what
    the same text gives when the upstream ends normally: chunks whose
    [finish_reason] is [null], without terminal chunk and without the
    sentinel. The text after the last newline is not transcoded. *)
Theorem failed_read_truncates
    (clock : nat -> Z) (randomUUID : nat -> jsstring) (model : jsstring)
    (reads : list jsstring) (e : exn) :
  snd (start clock randomUUID model {| chunks := reads; failure := Some e |}) = Errored e
  /\ Forall unfinished
       (fst (start clock randomUUID model {| chunks := reads; failure := Some e |}))
  /\ fst (start clock randomUUID model {| chunks := reads; failure := Some e |})
     = body_events clock randomUUID model (omap decode (fst (scan (concat reads))))
  /\ exists rest : list Event,
       fst (start clock randomUUID model {| chunks := reads; failure := None |})
       = fst (start clock randomUUID model {| chunks := reads; failure := Some e |}) ++ rest.
Proof.
  rewrite !start_render. cbn [fst snd].
  split; [reflexivity|]. split; [apply body_events_unfinished|]. split; [reflexivity|].
  unfold render, split_lines. rewrite omap_app.
  destruct (body_events_app clock randomUUID model
              (omap decode (fst (scan (concat reads))))
              (omap decode [snd (scan (concat reads))])) as [rest Hrest].
  rewrite Hrest. eexists. symmetry. apply app_assoc.
Qed.

Lemma undecoded_line (clock : nat -> Z) (randomUUID : nat -> jsstring) (model : jsstring)
    (pre l after : jsstring) (f : option exn) :
  decode l = None -> indexOf l 10 = None ->
  start clock randomUUID model
    {| chunks := [pre ++ 10%N :: l ++ 10%N :: after]; failure := f |}
  = start clock randomUUID model {| chunks := [pre ++ 10%N :: after]; failure := f |}.
Proof.
  intros Hd Hl. rewrite !start_render. cbn [concat]. rewrite !app_nil_r.
  unfold split_lines.
  rewrite (scan_app_newline pre (l ++ 10%N :: after)), (scan_app_newline pre after).
  rewrite (scan_app_newline l after), (scan_no_newline l Hl). cbn [fst snd app].
  destruct f as [e|].
  - rewrite !omap_app, !omap_step, Hd. reflexivity.
  - rewrite <- !app_assoc. cbn [app]. rewrite !omap_app, !omap_step, Hd. reflexivity.
Qed.

(** X15: a [[DONE]] marker of the upstream, with or without the prefix
    [data: ], and a line [data: ] without payload, are not forwarded and do
    not end the output: the lines that follow are transcoded as if the
    marker were not there, and the sentinel of the output comes from the
    end of the upstream alone. *)
Theorem upstream_done_ignored
    (clock : nat -> Z) (randomUUID : nat -> jsstring) (model : jsstring)
    (pre after : jsstring) (f : option exn) :
  start clock randomUUID model
    {| chunks := [pre ++ 10%N :: js "data: [DONE]" ++ 10%N :: after]; failure := f |}
  = start clock randomUUID model {| chunks := [pre ++ 10%N :: after]; failure := f |}
  /\ start clock randomUUID model
       {| chunks := [pre ++ 10%N :: js "[DONE]" ++ 10%N :: after]; failure := f |}
     = start clock randomUUID model {| chunks := [pre ++ 10%N :: after]; failure := f |}
  /\ start clock randomUUID model
       {| chunks := [pre ++ 10%N :: js "data: " ++ 10%N :: after]; failure := f |}
     = start clock randomUUID model {| chunks := [pre ++ 10%N :: after]; failure := f |}
  /\ (forall st : Transcoder,
        processChunk clock randomUUID model (js "data: [DONE]") st = st).
Proof.
  split; [|split; [|split]]; try (apply undecoded_line; vm_compute; reflexivity).
  intros st. reflexivity.
Qed.

(** The text fragments a list of events delivers, in order. *)
Definition fragments (evs : list Event) : list value :=
  omap (fun e => match e with
                 | Data c => match ch_delta c with DeltaContent v => Some v | _ => None end
                 | Done => None
                 end) evs.

(** The [response] of a decoded event, when it has one that is truthy. *)
Definition response_of (d : value) : option value :=
  match get d (js "response") with
  | Val v => if truthy v then Some v else None
  | _ => None
  end.

Lemma fragments_app (a b : list Event) : fragments (a ++ b) = fragments a ++ fragments b.
Proof. apply omap_app. Qed.

Lemma fragments_contents (clock : nat -> Z) (randomUUID : nat -> jsstring)
    (model : jsstring) (ds : list value) :
  forall k : nat, fragments (contents clock randomUUID model k ds) = omap response_of ds.
Proof.
  induction ds as [|d ds IH]; intros k; [reflexivity|].
  cbn [contents]. rewrite fragments_app, IH, omap_step.
  unfold content_of, response_of.
  destruct (get d (js "response")) as [| |v]; try reflexivity.
  destruct (truthy v); reflexivity.
Qed.

Lemma fragments_body (clock : nat -> Z) (randomUUID : nat -> jsstring)
    (model : jsstring) (ds : list value) :
  fragments (body_events clock randomUUID model ds) = omap response_of ds.
Proof.
  unfold body_events. rewrite fragments_app, fragments_contents.
  destruct ds; reflexivity.
Qed.

(** X16: the content chunks of the output carry, in the order of the
    upstream lines and without loss or repetition, the [response] of every
    line that decodes to an event with a truthy [response]; role chunk,
    terminal chunk and sentinel carry no text. When the upstream fails the
    same holds of its complete lines. *)
Theorem fragments_in_order
    (clock : nat -> Z) (randomUUID : nat -> jsstring) (model : jsstring)
    (reads : list jsstring) (f : option exn) :
  fragments (fst (start clock randomUUID model {| chunks := reads; failure := f |}))
  = omap response_of
      (omap decode
         (match f with
          | None => split_lines (concat reads)
          | Some _ => fst (scan (concat reads))
          end)).
Proof.
  rewrite start_render. destruct f as [e|]; cbn [fst].
  - apply fragments_body.
  - unfold render. rewrite fragments_app, fragments_body. cbn. apply app_nil_r.
Qed.

(** ** The reads of the upstream *)

Section Reads.

Import TextDecoder.















End Reads.






(** ** The answers of the chat controller *)

(** The three rate-limit headers of a response. *)
Definition limit_headers (h : Headers) : list (option jsstring) :=
  [ h !! js "X-RateLimit-Limit"; h !! js "X-RateLimit-Remaining"; h !! js "X-RateLimit-Reset" ].

(** The rate-limit headers that report [info]. *)
Definition reported (info : option RateLimitInfo) : list (option jsstring) :=
  match info with
  | Some i => [ Some (toString (total i)); Some (toString (remaining i));
                Some (toString (reset i)) ]
  | None => [ None; None; None ]
  end.

Ltac distinct_names :=
  let H := fresh in intros H; vm_compute in H; discriminate H.

Lemma limit_headers_secured (h : Headers) :
  limit_headers (addSecurityHeaders h) = limit_headers h.
Proof.
  unfold limit_headers. rewrite !lookup_addSecurityHeaders.
  replace (hardened (js "X-RateLimit-Limit")) with (@None jsstring)
    by (vm_compute; reflexivity).
  replace (hardened (js "X-RateLimit-Remaining")) with (@None jsstring)
    by (vm_compute; reflexivity).
  replace (hardened (js "X-RateLimit-Reset")) with (@None jsstring)
    by (vm_compute; reflexivity).
  reflexivity.
Qed.

Lemma limit_headers_reported (info : option RateLimitInfo) (h : Headers) :
  limit_headers h = [None; None; None] ->
  limit_headers (rate_limit_headers info h) = reported info.
Proof.
  destruct info as [i|]; [intros _|intros H; exact H].
  unfold limit_headers, rate_limit_headers, reported.
  f_equal; [|f_equal; [|f_equal]].
  - rewrite headers_lookup_insert_ne by distinct_names.
    rewrite headers_lookup_insert_ne by distinct_names.
    apply headers_lookup_insert_eq. reflexivity.
  - rewrite headers_lookup_insert_ne by distinct_names.
    apply headers_lookup_insert_eq. reflexivity.
  - apply headers_lookup_insert_eq. reflexivity.
Qed.

Lemma content_type_kept (info : option RateLimitInfo) (h : Headers) :
  addSecurityHeaders (rate_limit_headers info h) !! js "Content-Type"
  = h !! js "Content-Type".
Proof.
  rewrite lookup_addSecurityHeaders.
  replace (hardened (js "Content-Type")) with (@None jsstring) by (vm_compute; reflexivity).
  destruct info as [i|]; [|reflexivity]. unfold rate_limit_headers.
  rewrite !headers_lookup_insert_ne by distinct_names. reflexivity.
Qed.

Lemma caught_class (e : exn) :
  status (caught e) = 500
  /\ (exists env : ErrorEnvelope, body (caught e) = ErrorBody env
                                  /\ err_type env = js "server_error")
  /\ limit_headers (headers (caught e)) = [None; None; None].
Proof.
  split; [reflexivity|]. split; [eexists; split; reflexivity|].
  unfold caught, secured. cbn [headers]. rewrite limit_headers_secured.
  vm_compute. reflexivity.
Qed.

(** The three kinds of answer of the chat controller. *)
Lemma chat_answer_class
    (clock : nat -> Z) (randomUUID : nat -> jsstring) (models : list AIModel)
    (run : jsstring -> RunOptions -> outcome AiReply)
    (b : ChatCompletionRequest) (info : option RateLimitInfo) :
  match body (createChatCompletion clock randomUUID models run b info) with
  | CompletionBody _ | LooseCompletionBody _ | StreamBody _ _ =>
      status (createChatCompletion clock randomUUID models run b info) = 200
      /\ limit_headers (headers (createChatCompletion clock randomUUID models run b info))
         = reported info
  | ErrorBody e =>
      ((status (createChatCompletion clock randomUUID models run b info) = 400
        /\ err_type e = js "invalid_request_error")
       \/ (status (createChatCompletion clock randomUUID models run b info) = 500
           /\ err_type e = js "server_error"))
      /\ limit_headers (headers (createChatCompletion clock randomUUID models run b info))
         = [None; None; None]
  | NoBody => False
  end.
Proof.
  assert (Hcaught : forall e : exn,
            match body (caught e) with
            | CompletionBody _ | LooseCompletionBody _ | StreamBody _ _ =>
                status (caught e) = 200
                /\ limit_headers (headers (caught e)) = reported info
            | ErrorBody env =>
                ((status (caught e) = 400 /\ err_type env = js "invalid_request_error")
                 \/ (status (caught e) = 500 /\ err_type env = js "server_error"))
                /\ limit_headers (headers (caught e)) = [None; None; None]
            | NoBody => False
            end).
  { intros e. destruct (caught_class e) as (Hs & (env & Hb & Ht) & Hh).
    rewrite Hb. split; [right; split; assumption|exact Hh]. }
  unfold createChatCompletion. rewrite validate_typed.
  destruct (first_failure (typed_checks b)) as [e|]; cbn [fmap option_fmap option_map].
  - cbn [secured invalid_request createErrorResponse body status headers err_type].
    split; [left; split; reflexivity|]. rewrite limit_headers_secured.
    vm_compute. reflexivity.
  - destruct (default false (stream b)).
    + destruct (generateChatCompletion _ _ _) as [[c fr|up|v fr]|e]; try apply Hcaught.
      destruct (start _ _ _ _) as [events ending].
      cbn [secured body status headers]. split; [reflexivity|].
      rewrite limit_headers_secured. apply limit_headers_reported.
      vm_compute. reflexivity.
    + destruct (generateChatCompletion _ _ _) as [[c fr|up|v fr]|e]; try apply Hcaught;
        (cbn [secured body status headers]; split; [reflexivity|];
         rewrite limit_headers_secured; apply limit_headers_reported;
         vm_compute; reflexivity).
Qed.

(** X17: on a request body whose fields have their declared types,
    whatever the catalogue, the binding and the limiter's information, the
    chat controller answers in one of three ways: status
    200 with a completion or a stream, and the three [X-RateLimit-*]
    headers reporting the limiter's information; or status 400 with an
    [invalid_request_error]; or status 500 with a [server_error]. The two
    kinds of error carry no [X-RateLimit-*] header. *)
Theorem chat_response_classes
    (clock : nat -> Z) (randomUUID : nat -> jsstring) (models : list AIModel)
    (run : jsstring -> RunOptions -> outcome AiReply)
    (b : ChatCompletionRequest) (info : option RateLimitInfo) :
  match body (createChatCompletion clock randomUUID models run b info) with
  | CompletionBody _ | LooseCompletionBody _ | StreamBody _ _ =>
      status (createChatCompletion clock randomUUID models run b info) = 200
      /\ limit_headers (headers (createChatCompletion clock randomUUID models run b info))
         = reported info
  | ErrorBody e =>
      ((status (createChatCompletion clock randomUUID models run b info) = 400
        /\ err_type e = js "invalid_request_error")
       \/ (status (createChatCompletion clock randomUUID models run b info) = 500
           /\ err_type e = js "server_error"))
      /\ limit_headers (headers (createChatCompletion clock randomUUID models run b info))
         = [None; None; None]
  | NoBody => False
  end.
Proof. exact (chat_answer_class clock randomUUID models run b info). Qed.

(** X18: in streaming mode, once the request is valid and its model is in
    the catalogue with the chat capability, the answer is 200 with
    [Content-Type: text/event-stream] whatever the binding then does, and
    the binding is called with every message of the request. The body is
    the transcoding of what the reader of the engine's relay is given:
    every chunk of the binding's stream when that stream ends normally; the
    chunks taken before the failure, then the failure, when a read of it
    fails, the chunks enqueued and not yet taken being lost; and a stream
    without events, errored with the exception of the binding or with
    [Expected streaming response from AI service], when the binding throws
    or gives something other than a stream. *)
Theorem streaming_status_committed
    (clock : nat -> Z) (randomUUID : nat -> jsstring) (models : list AIModel)
    (run : jsstring -> RunOptions -> outcome AiReply)
    (b : ChatCompletionRequest) (info : option RateLimitInfo) (mi : AIModel) :
  validateRequestBody (body_value b) = Return None ->
  stream b = Some true ->
  getModelById models (model b) = Some mi ->
  supports_chat mi = true ->
  status (createChatCompletion clock randomUUID models run b info) = 200
  /\ headers (createChatCompletion clock randomUUID models run b info) !! js "Content-Type"
     = Some (js "text/event-stream")
  /\ run_messages (options_of b true) = messages b
  /\ body (createChatCompletion clock randomUUID models run b info)
     = match run (model b) (options_of b true) with
       | Return (Bytes up taken) =>
           match byte_failure up with
           | None =>
               StreamBody
                 (fst (start clock randomUUID (model b)
                         {| chunks := TextDecoder.decode <$> byte_chunks up;
                            failure := None |}))
                 Closed
           | Some e =>
               StreamBody
                 (fst (start clock randomUUID (model b)
                         {| chunks := TextDecoder.decode <$> take taken (byte_chunks up);
                            failure := Some e |}))
                 (Errored e)
           end
       | Return _ =>
           StreamBody []
             (Errored (Error (js "Expected streaming response from AI service")))
       | Throw e => StreamBody [] (Errored e)
       end.
Proof.
  intros Hv Hs Hf Hc. destruct (valid_body_messages b Hv) as [Hkeep Hne].
  assert (Hm : filter (fun m => valid_message m = true) (messages b) <> [])
    by (rewrite Hkeep; exact Hne).
  assert (Hd : default false (stream b) = true) by (rewrite Hs; reflexivity).
  destruct (streaming_answer clock randomUUID models run b info mi Hv Hf Hc Hm Hd)
    as [_ ->].
  split; [reflexivity|]. split.
  { cbn [secured headers]. rewrite content_type_kept. vm_compute. reflexivity. }
  split; [exact Hkeep|].
  cbn [secured body]. unfold streamed.
  destruct (run (model b) (options_of b true)) as [[| t | up k | v]|e];
    try reflexivity.
  cbn [relay]. destruct up as [reads [e|]]; cbn [byte_failure byte_chunks].
  - unfold decoded. cbn [byte_failure byte_chunks].
    rewrite start_render. reflexivity.
  - unfold decoded. cbn [byte_failure byte_chunks].
    rewrite start_render. reflexivity.
Qed.

(** A stream of three lines, one line to a chunk, whose fourth read fails
    when the reader of the relay has taken two chunks. *)
Definition three_words : ByteStream :=
  {| byte_chunks :=
       [ TextDecoder.bytes_q "data: {'response':'w0'}" ++ [Byte.x0a];
         TextDecoder.bytes_q "data: {'response':'w1'}" ++ [Byte.x0a];
         TextDecoder.bytes_q "data: {'response':'w2'}" ++ [Byte.x0a] ];
     byte_failure := Some (Error (js "reset")) |}.

Definition answers_three_words (_ : jsstring) (_ : RunOptions) : outcome AiReply :=
  Return (Bytes three_words 2).

Lemma streaming_status_committed_witness :
  status (createChatCompletion ticking numbered one_model answers_three_words streamed_40
            None) = 200
  /\ headers (createChatCompletion ticking numbered one_model answers_three_words streamed_40
                None) !! js "Content-Type"
     = Some (js "text/event-stream")
  /\ run_messages (options_of streamed_40 true) = messages streamed_40
  /\ body (createChatCompletion ticking numbered one_model answers_three_words streamed_40
             None)
     = StreamBody
         (fst (start ticking numbered (js "m")
                 {| chunks := [ jsq "data: {'response':'w0'}" ++ [10%N];
                                jsq "data: {'response':'w1'}" ++ [10%N] ];
                    failure := Some (Error (js "reset")) |}))
         (Errored (Error (js "reset"))).
Proof.
  apply (streaming_status_committed ticking numbered one_model answers_three_words
           streamed_40 None
           {| id := js "m";
              capabilities := Some {| embeddings := None; chat := Some true;
                                      completions := None; translation := None |} |}).
  - vm_compute. reflexivity.
  - reflexivity.
  - vm_compute. reflexivity.
  - reflexivity.
Defined.

(** ** The router and the entry point *)

Section Routing.

Variable models : list AIModel.
Variable clock : nat -> Z.
Variable randomUUID : nat -> jsstring.

Local Abbreviation serve_request := (fetch models clock randomUUID).

Lemma answer_headers_secured (a : Answer) :
  answer_headers (secured_answer a) = addSecurityHeaders (answer_headers a).
Proof. destruct a; reflexivity. Qed.

Lemma answer_status_secured (a : Answer) : answer_status (secured_answer a) = answer_status a.
Proof. destruct a; reflexivity. Qed.

Lemma fetch_handle (env : Env) (request : Request) :
  serve_request env request
  = (secured_answer (fst (handle models clock randomUUID env request)),
     snd (handle models clock randomUUID env request)).
Proof. unfold fetch. destruct (handle _ _ _ _ _). reflexivity. Qed.

Lemma handle_gated (env : Env) (request : Request) :
  req_method request <> js "OPTIONS" ->
  handle models clock randomUUID env request
  = match verifyApiKey (req_authorization request) (API_KEYS_fails env) with
    | Some apiKeyError => (Plain (secured apiKeyError), RATE_LIMIT_KV env)
    | None =>
        match checkRateLimit (req_authorization request) (clock 0) (RATE_LIMIT_KV env) with
        | (Reply rateLimitResult, kv) => (Plain (secured rateLimitResult), kv)
        | (Info rateLimitInfo, kv) =>
            if str_eqb (req_pathname request) (js "/v1/chat/completions")
               && str_eqb (req_method request) (js "POST")
            then (Plain (createChatCompletion_of models clock randomUUID env request
                           rateLimitInfo), kv)
            else if str_eqb (req_pathname request) (js "/v1/models")
                    && str_eqb (req_method request) (js "GET")
            then (listModels models, kv)
            else (Plain not_found, kv)
        end
    end.
Proof.
  intros Hm. unfold handle. unfold str_eqb at 1.
  rewrite bool_decide_eq_false_2 by exact Hm. reflexivity.
Qed.

Lemma hardening_lookup (h : Headers) :
  Forall (fun p : string * string => addSecurityHeaders h !! js p.1 = Some (js p.2)) hardening.
Proof.
  unfold hardening.
  repeat (constructor; [rewrite lookup_addSecurityHeaders; vm_compute; reflexivity|]).
  constructor.
Qed.

(** X19: every answer of the worker, whatever the request and the state of
    its bindings, carries the seven hardening headers with their fixed
    values. *)
Theorem every_answer_hardened (env : Env) (request : Request) :
  Forall (fun p : string * string =>
            answer_headers (fst (serve_request env request)) !! js p.1 = Some (js p.2))
    hardening.
Proof.
  rewrite fetch_handle. cbn [fst]. rewrite answer_headers_secured. apply hardening_lookup.
Qed.

(** X20: a request of method [OPTIONS] is answered before any gate: with
    or without credential, whatever its path and whether or not the
    namespaces can be reached, the answer is 200 without body, with the
    four [Access-Control-*] headers, and the rate-limit namespace is left
    as it was. *)
Theorem preflight_bypasses_gates (env : Env) (request : Request) :
  req_method request = js "OPTIONS" ->
  serve_request env request = (Plain (secured handlePreflight), RATE_LIMIT_KV env)
  /\ status (secured handlePreflight) = 200
  /\ body (secured handlePreflight) = NoBody
  /\ headers (secured handlePreflight) !! js "Access-Control-Allow-Origin" = Some (js "*")
  /\ headers (secured handlePreflight) !! js "Access-Control-Allow-Methods"
     = Some (js "GET, POST, OPTIONS")
  /\ headers (secured handlePreflight) !! js "Access-Control-Allow-Headers"
     = Some (js "Content-Type, Authorization")
  /\ headers (secured handlePreflight) !! js "Access-Control-Max-Age" = Some (js "86400").
Proof.
  intros Hm. split.
  - unfold fetch, handle. rewrite Hm. reflexivity.
  - repeat split; vm_compute; reflexivity.
Qed.

(** X21: the gates are passed in order. A request that the authenticator
    refuses is answered with the authenticator's response, 401 or, when the
    key namespace fails, 500, and the rate limiter is not called: the
    namespace is as it was. A request that the authenticator accepts is
    counted by the rate limiter whatever its route, and a refusal of the
    limiter is the answer. *)
Theorem gates_in_order (env : Env) (request : Request) :
  req_method request <> js "OPTIONS" ->
  match verifyApiKey (req_authorization request) (API_KEYS_fails env) with
  | Some r =>
      serve_request env request = (Plain (secured (secured r)), RATE_LIMIT_KV env)
      /\ (status r = 401 \/ (status r = 500 /\ API_KEYS_fails env = true))
  | None =>
      snd (serve_request env request)
      = snd (checkRateLimit (req_authorization request) (clock 0) (RATE_LIMIT_KV env))
      /\ match fst (checkRateLimit (req_authorization request) (clock 0)
                      (RATE_LIMIT_KV env)) with
         | Reply r => fst (serve_request env request) = Plain (secured (secured r))
         | Info _ => True
         end
  end.
Proof.
  intros Hm. rewrite fetch_handle, (handle_gated env request Hm).
  destruct (verifyApiKey _ _) as [r|] eqn:Hv.
  - split; [reflexivity|]. unfold verifyApiKey in Hv.
    destruct (req_authorization request) as [[|c h]|]; try (injection Hv as <-; left; reflexivity).
    destruct (match_bearer (c :: h)); [|injection Hv as <-; left; reflexivity].
    destruct (API_KEYS_fails env); [|discriminate].
    injection Hv as <-. right. split; reflexivity.
  - destruct (checkRateLimit _ _ _) as [[i|r] kv]; cbn [fst snd]; [|split; reflexivity].
    split; [|exact I].
    destruct (_ && _); [reflexivity|]. destruct (_ && _); reflexivity.
Qed.

(** A request for a path that is not served, without credential, and one
    with a credential. *)
Definition anonymous_request : Request :=
  {| req_method := js "GET"; req_pathname := js "/v1/nothing";
     req_authorization := None;
     req_json := Throw (SyntaxError (js "Unexpected end of JSON input")) |}.

Definition stray_request : Request :=
  {| req_method := js "GET"; req_pathname := js "/v1/nothing";
     req_authorization := Some (js "Bearer k");
     req_json := Throw (SyntaxError (js "Unexpected end of JSON input")) |}.

Definition preflight_request : Request :=
  {| req_method := js "OPTIONS"; req_pathname := js "/v1/nothing";
     req_authorization := None;
     req_json := Throw (SyntaxError (js "Unexpected end of JSON input")) |}.

(** An environment whose namespaces and binding fail, and one that works. *)
Definition failing_env : Env :=
  {| RATE_LIMIT_KV := {| entries := ∅; puts := []; reachable := false |};
     API_KEYS_fails := true;
     AI := binding_down |}.

Definition working_env : Env :=
  {| RATE_LIMIT_KV := empty_kv; API_KEYS_fails := false; AI := answers_80 |}.

Lemma allowed_writes_once (authorization : option jsstring) (c : Z) (kv kv' : KV)
    (i : RateLimitInfo) :
  checkRateLimit authorization c kv = (Info i, kv') ->
  total i = RATE_LIMIT
  /\ exists (key : jsstring) (d : RateLimitData),
       puts kv' = (key, d, WINDOW_SIZE) :: puts kv
       /\ count d = RATE_LIMIT - remaining i.
Proof.
  unfold checkRateLimit.
  destruct (apiKey_of authorization) as [[|a k]|]; try discriminate.
  unfold kv_get, kv_put. destruct (reachable kv); [|discriminate].
  match goal with |- context [RATE_LIMIT <=? ?x] => destruct (RATE_LIMIT <=? x) end;
    [discriminate|].
  intros [= <- <-]. split; [reflexivity|].
  eexists _, _. split; [reflexivity|]. cbn [count remaining]. lia.
Qed.

(** X22: a request that passes both gates and asks for a route that is not
    served is answered 404 [invalid_request_error] with the message
    [Not Found], and it has been counted: the limiter has written the record
    of the credential once. *)
Theorem unknown_route_is_counted (env : Env) (request : Request)
    (i : RateLimitInfo) (kv' : KV) :
  req_method request <> js "OPTIONS" ->
  verifyApiKey (req_authorization request) (API_KEYS_fails env) = None ->
  checkRateLimit (req_authorization request) (clock 0) (RATE_LIMIT_KV env) = (Info i, kv') ->
  ~ (req_pathname request = js "/v1/chat/completions" /\ req_method request = js "POST") ->
  ~ (req_pathname request = js "/v1/models" /\ req_method request = js "GET") ->
  serve_request env request = (Plain (secured not_found), kv')
  /\ status (secured not_found) = 404
  /\ body (secured not_found)
     = ErrorBody {| err_message := js "Not Found"; err_type := js "invalid_request_error";
                    err_param := None; err_code := None |}
  /\ exists (key : jsstring) (d : RateLimitData),
       puts kv' = (key, d, WINDOW_SIZE) :: puts (RATE_LIMIT_KV env).
Proof.
  intros Hm Hv Hr Hchat Hmodels. split; [|split; [reflexivity|split; [reflexivity|]]].
  - rewrite fetch_handle, (handle_gated env request Hm), Hv, Hr. unfold str_eqb.
    destruct (bool_decide (req_pathname request = js "/v1/chat/completions")) eqn:H1;
      destruct (bool_decide (req_method request = js "POST")) eqn:H2; cbn [andb];
      try (apply bool_decide_eq_true in H1; apply bool_decide_eq_true in H2;
           destruct (Hchat (conj H1 H2)));
      (destruct (bool_decide (req_pathname request = js "/v1/models")) eqn:H3;
       destruct (bool_decide (req_method request = js "GET")) eqn:H4; cbn [andb];
       try (apply bool_decide_eq_true in H3; apply bool_decide_eq_true in H4;
            destruct (Hmodels (conj H3 H4)));
       reflexivity).
  - destruct (allowed_writes_once _ _ _ _ _ Hr) as (_ & key & d & Hp & _).
    exists key, d. exact Hp.
Qed.

(** X23: the listing of the models, for a request that passes both gates:
    status 200, [Content-Type: application/json], the catalogue as it is
    under [data] with [object: "list"], whatever the inference binding; the
    request has been counted by the limiter and the answer carries no
    [X-RateLimit-*] header. *)
Theorem models_are_listed (env : Env) (request : Request)
    (i : RateLimitInfo) (kv' : KV) :
  req_method request = js "GET" ->
  req_pathname request = js "/v1/models" ->
  verifyApiKey (req_authorization request) (API_KEYS_fails env) = None ->
  checkRateLimit (req_authorization request) (clock 0) (RATE_LIMIT_KV env) = (Info i, kv') ->
  exists h : Headers,
    serve_request env request
    = (Listing 200 h {| ml_object := js "list"; ml_data := models |}, kv')
    /\ h !! js "Content-Type" = Some (js "application/json")
    /\ limit_headers h = [None; None; None].
Proof.
  intros Hm Hp Hv Hr. eexists. split; [|split].
  - unfold fetch, handle, str_eqb. rewrite Hm, Hp, Hv, Hr.
    replace (bool_decide (js "GET" = js "OPTIONS")) with false by (vm_compute; reflexivity).
    replace (bool_decide (js "/v1/models" = js "/v1/chat/completions")) with false
      by (vm_compute; reflexivity).
    cbn [andb]. rewrite !bool_decide_eq_true_2 by reflexivity. cbn [andb].
    reflexivity.
  - vm_compute. reflexivity.
  - vm_compute. reflexivity.
Qed.

(** X24: a [POST] to [/v1/chat/completions] that passes both gates, with a
    body whose fields have their declared types, is answered by the chat
    controller on the namespace the limiter left. An answer 200 reports the
    limiter's information for this very request: [X-RateLimit-Limit: 100]
    and the [remaining] and [reset] the limiter computed; an answer 400 or
    500 reports none. A body that [request.json()] cannot read is answered
    500 [server_error] with the message of the exception, not 400, and the
    request has been counted. *)
Theorem chat_route_reports_limit (env : Env) (request : Request)
    (i : RateLimitInfo) (kv' : KV) :
  req_method request = js "POST" ->
  req_pathname request = js "/v1/chat/completions" ->
  verifyApiKey (req_authorization request) (API_KEYS_fails env) = None ->
  checkRateLimit (req_authorization request) (clock 0) (RATE_LIMIT_KV env) = (Info i, kv') ->
  exists r : Response,
    serve_request env request = (Plain r, kv')
    /\ match body r with
       | CompletionBody _ | LooseCompletionBody _ | StreamBody _ _ =>
           status r = 200
           /\ limit_headers (headers r)
              = [ Some (js "100"); Some (toString (remaining i)); Some (toString (reset i)) ]
       | ErrorBody e =>
           ((status r = 400 /\ err_type e = js "invalid_request_error")
            \/ (status r = 500 /\ err_type e = js "server_error"))
           /\ limit_headers (headers r) = [None; None; None]
       | NoBody => False
       end
    /\ (forall e : exn,
          req_json request = Throw e ->
          status r = 500
          /\ body r
             = ErrorBody {| err_message := if instanceof_Error e then message_of e
                                           else js "An error occurred";
                            err_type := js "server_error";
                            err_param := None; err_code := None |})
    /\ exists (key : jsstring) (d : RateLimitData),
         puts kv' = (key, d, WINDOW_SIZE) :: puts (RATE_LIMIT_KV env).
Proof.
  intros Hm Hp Hv Hr.
  destruct (allowed_writes_once _ _ _ _ _ Hr) as (Ht & key & d & Hputs & _).
  exists (secured (createChatCompletion_of models clock randomUUID env request i)).
  split; [|split; [|split; [|exists key, d; exact Hputs]]].
  - rewrite fetch_handle. unfold handle, str_eqb. rewrite Hm, Hp, Hv, Hr.
    replace (bool_decide (js "POST" = js "OPTIONS")) with false by (vm_compute; reflexivity).
    rewrite !bool_decide_eq_true_2 by reflexivity. reflexivity.
  - unfold createChatCompletion_of. cbn [secured body status headers].
    rewrite limit_headers_secured.
    destruct (req_json request) as [b|e].
    + pose proof (chat_answer_class (fun k => clock (S k)) randomUUID models (AI env) b
                    (Some i)) as Hclass.
      cbn [reported] in Hclass. rewrite Ht in Hclass.
      replace (toString RATE_LIMIT) with (js "100") in Hclass by (vm_compute; reflexivity).
      exact Hclass.
    + destruct (caught_class e) as (Hs & (envl & Hb & Hty) & Hh).
      rewrite Hb. split; [right; split; assumption|exact Hh].
  - intros e He. unfold createChatCompletion_of. rewrite He. split; reflexivity.
Qed.

End Routing.

Lemma preflight_bypasses_gates_witness :
  fetch one_model ticking numbered failing_env preflight_request
  = (Plain (secured handlePreflight), RATE_LIMIT_KV failing_env)
  /\ status (secured handlePreflight) = 200
  /\ body (secured handlePreflight) = NoBody
  /\ headers (secured handlePreflight) !! js "Access-Control-Allow-Origin" = Some (js "*")
  /\ headers (secured handlePreflight) !! js "Access-Control-Allow-Methods"
     = Some (js "GET, POST, OPTIONS")
  /\ headers (secured handlePreflight) !! js "Access-Control-Allow-Headers"
     = Some (js "Content-Type, Authorization")
  /\ headers (secured handlePreflight) !! js "Access-Control-Max-Age" = Some (js "86400").
Proof.
  apply (preflight_bypasses_gates one_model ticking numbered failing_env preflight_request).
  reflexivity.
Defined.

Lemma gates_in_order_witness :
  fetch one_model ticking numbered working_env anonymous_request
  = (Plain
       (secured
          (secured
             (createApiResponse
                "No API key provided. Include as Bearer token in Authorization header"
                "authentication_error" 401 ∅))),
     RATE_LIMIT_KV working_env)
  /\ (status
        (createApiResponse
           "No API key provided. Include as Bearer token in Authorization header"
           "authentication_error" 401 ∅) = 401
      \/ (status
            (createApiResponse
               "No API key provided. Include as Bearer token in Authorization header"
               "authentication_error" 401 ∅) = 500
          /\ API_KEYS_fails working_env = true)).
Proof.
  apply (gates_in_order one_model ticking numbered working_env anonymous_request).
  vm_compute. discriminate.
Defined.

Lemma unknown_route_is_counted_witness :
  fetch one_model ticking numbered working_env stray_request
  = (Plain (secured not_found),
     snd (checkRateLimit (Some (js "Bearer k")) (ticking 0) empty_kv))
  /\ status (secured not_found) = 404
  /\ body (secured not_found)
     = ErrorBody {| err_message := js "Not Found"; err_type := js "invalid_request_error";
                    err_param := None; err_code := None |}
  /\ exists (key : jsstring) (d : RateLimitData),
       puts (snd (checkRateLimit (Some (js "Bearer k")) (ticking 0) empty_kv))
       = (key, d, WINDOW_SIZE) :: puts (RATE_LIMIT_KV working_env).
Proof.
  apply (unknown_route_is_counted one_model ticking numbered working_env stray_request
           {| remaining := 99; reset := 1700000000 + 3600; total := 100 |}).
  - vm_compute. discriminate.
  - vm_compute. reflexivity.
  - vm_compute. reflexivity.
  - intros [H _]. vm_compute in H. discriminate H.
  - intros [H _]. vm_compute in H. discriminate H.
Defined.

Definition listing_request : Request :=
  {| req_method := js "GET"; req_pathname := js "/v1/models";
     req_authorization := Some (js "Bearer k");
     req_json := Throw (SyntaxError (js "Unexpected end of JSON input")) |}.

Lemma models_are_listed_witness :
  exists h : Headers,
    fetch one_model ticking numbered working_env listing_request
    = (Listing 200 h {| ml_object := js "list"; ml_data := one_model |},
       snd (checkRateLimit (Some (js "Bearer k")) (ticking 0) empty_kv))
    /\ h !! js "Content-Type" = Some (js "application/json")
    /\ limit_headers h = [None; None; None].
Proof.
  apply (models_are_listed one_model ticking numbered working_env listing_request
           {| remaining := 99; reset := 1700000000 + 3600; total := 100 |}).
  - reflexivity.
  - reflexivity.
  - vm_compute. reflexivity.
  - vm_compute. reflexivity.
Defined.

(** A completion request that can be served. *)
Definition completion_request : Request :=
  {| req_method := js "POST"; req_pathname := js "/v1/chat/completions";
     req_authorization := Some (js "Bearer k");
     req_json := Return prompt_40 |}.

Lemma chat_route_reports_limit_witness :
  exists r : Response,
    fetch one_model ticking numbered working_env completion_request
    = (Plain r, snd (checkRateLimit (Some (js "Bearer k")) (ticking 0) empty_kv))
    /\ match body r with
       | CompletionBody _ | LooseCompletionBody _ | StreamBody _ _ =>
           status r = 200
           /\ limit_headers (headers r)
              = [ Some (js "100"); Some (toString 99); Some (toString (1700000000 + 3600)) ]
       | ErrorBody e =>
           ((status r = 400 /\ err_type e = js "invalid_request_error")
            \/ (status r = 500 /\ err_type e = js "server_error"))
           /\ limit_headers (headers r) = [None; None; None]
       | NoBody => False
       end
    /\ (forall e : exn,
          req_json completion_request = Throw e ->
          status r = 500
          /\ body r
             = ErrorBody {| err_message := if instanceof_Error e then message_of e
                                           else js "An error occurred";
                            err_type := js "server_error";
                            err_param := None; err_code := None |})
    /\ exists (key : jsstring) (d : RateLimitData),
         puts (snd (checkRateLimit (Some (js "Bearer k")) (ticking 0) empty_kv))
         = (key, d, WINDOW_SIZE) :: puts (RATE_LIMIT_KV working_env).
Proof.
  apply (chat_route_reports_limit one_model ticking numbered working_env completion_request
           {| remaining := 99; reset := 1700000000 + 3600; total := 100 |}).
  - reflexivity.
  - reflexivity.
  - vm_compute. reflexivity.
  - vm_compute. reflexivity.
Defined.

(** ** Instances *)

Lemma addSecurityHeaders_idempotent_witness :
  addSecurityHeaders (set "x-frame-options" "SAMEORIGIN" ∅) !! js "X-FRAME-OPTIONS"
  = Some (js "DENY").
Proof.
  destruct (addSecurityHeaders_idempotent (set "x-frame-options" "SAMEORIGIN" ∅))
    as (_ & H & _).
  apply (H ("X-Frame-Options", "DENY")%string (js "X-FRAME-OPTIONS")).
  - vm_compute. auto.
  - vm_compute. reflexivity.
Defined.

Lemma rate_limit_isolation_witness :
  entries (snd (checkRateLimit (Some (js "Bearer k")) 5000 empty_kv))
    !! (js "ratelimit:" ++ js "other")
  = entries empty_kv !! (js "ratelimit:" ++ js "other").
Proof.
  destruct (rate_limit_isolation (Some (js "Bearer k")) 5000 empty_kv empty_kv) as [H _].
  apply H. intros k Hk. vm_compute in Hk. injection Hk as <-.
  intros Heq. vm_compute in Heq. discriminate Heq.
Defined.


(** A catalogue with two entries of the same id, the first without the
    chat capability. *)
Definition twice_m : list AIModel :=
  {| id := js "m"; capabilities := None |} :: one_model.

Lemma getModelById_first_witness :
  generateChatCompletion twice_m answers_80 prompt_40
  = Throw (Error (js "Model m does not support chat completions")).
Proof.
  pose proof (getModelById_first twice_m answers_80 prompt_40) as H.
  change (getModelById twice_m (model prompt_40))
    with (Some {| id := js "m"; capabilities := None |}) in H.
  destruct H as (before & after & _ & _ & _ & H).
  apply H. reflexivity.
Defined.

Lemma calculateTokens_monotone_witness :
  calculateTokens (js "Hi") <= calculateTokens (js "Hi there").
Proof.
  destruct calculateTokens_monotone as (_ & H & _).
  apply (H (js "Hi") (js "Hi there")). vm_compute. lia.
Defined.
